(** * Slavodej: the screenplay document store

    A shallow embedding of [frontend/src/store/scriptStore.ts]: the line
    classifier run by [replaceLines], the splice performed on the line
    sequence, and the edit-history stack consumed by [undoEdit]; and of
    the handlers of the components that drive the store: the rewrite
    panel, the upload form, the history list and the two ways of taking a
    selection.

    Conventions of the embedding.
    - A JavaScript string is the list of its UTF-16 code units ([list N]).
    - A JavaScript array is a [list]; [Array.prototype.slice] is written
      out with its clamping and its negative indices ([JsArray.slice]).
    - Line indices are integers ([Z]); the store receives them from the
      [data-line-index] attributes and from recorded history entries.
    - The zustand [set] merges the returned partial object into the
      previous state, so every operation is a function from the old state
      to the new one that copies the fields it does not mention. *)

From Stdlib Require Import ZArith NArith QArith List Bool Lia Ascii String.
From stdpp Require Import base tactics option list numbers.

Local Open Scope Z_scope.

(** ** JavaScript strings *)

Module JsString.

Abbreviation jsstring := (list N).

(** Code units of an ASCII literal. *)
Definition js (s : string) : jsstring :=
  List.map N_of_ascii (list_ascii_of_string s).

Definition LF : N := 10%N.

(** ECMAScript [WhiteSpace] and [LineTerminator] code points: what
    [String.prototype.trim] strips and what [\s] matches. *)
Definition isWhiteSpace (c : N) : bool :=
  ((c =? 9) || (c =? 10) || (c =? 11) || (c =? 12) || (c =? 13) || (c =? 32)
   || (c =? 160) || (c =? 5760) || ((8192 <=? c) && (c <=? 8202))
   || (c =? 8232) || (c =? 8233) || (c =? 8239) || (c =? 8287)
   || (c =? 12288) || (c =? 65279))%N.

Fixpoint trimStart (s : jsstring) : jsstring :=
  match s with
  | [] => []
  | c :: s' => if isWhiteSpace c then trimStart s' else s
  end.

Definition trimEnd (s : jsstring) : jsstring :=
  rev (trimStart (rev s)).

Definition trim (s : jsstring) : jsstring := trimEnd (trimStart s).

(** [s.split(sep)] for a one-code-unit separator: never returns the
    empty array ([''.split('\n')] is [['']]). *)
Fixpoint split (sep : N) (s : jsstring) : list jsstring :=
  match s with
  | [] => [[]]
  | c :: s' =>
      if (c =? sep)%N then [] :: split sep s'
      else match split sep s' with
           | seg :: segs => (c :: seg) :: segs
           | [] => [[c]]
           end
  end.

(** [parts.join(sep)]. *)
Fixpoint join (sep : jsstring) (parts : list jsstring) : jsstring :=
  match parts with
  | [] => []
  | [p] => p
  | p :: ps => p ++ sep ++ join sep ps
  end.

Definition startsWith (s : jsstring) (c : N) : bool :=
  match s with
  | c' :: _ => (c' =? c)%N
  | [] => false
  end.

Definition endsWith (s : jsstring) (c : N) : bool :=
  match rev s with
  | c' :: _ => (c' =? c)%N
  | [] => false
  end.

Definition includes (s : jsstring) (c : N) : bool :=
  existsb (fun c' => (c' =? c)%N) s.

(** A string is truthy when it is not empty. *)
Definition truthy (s : jsstring) : bool :=
  match s with [] => false | _ :: _ => true end.

(** Upper-casing of one Basic Latin code unit. *)
Definition asciiUpper (c : N) : N :=
  if ((97 <=? c) && (c <=? 122))%N then (c - 32)%N else c.

Definition isAscii (c : N) : Prop := (c < 128)%N.

(** [String.prototype.toUpperCase] follows the Unicode case-mapping
    tables of the host.  The store only relies on what it does to Basic
    Latin text, which is the law recorded here. *)
Class UpperCase := {
  toUpperCase : jsstring -> jsstring;
  toUpperCase_ascii :
    forall s, Forall isAscii s -> toUpperCase s = List.map asciiUpper s
}.

(** One conforming implementation: [a]-[z] are mapped, every other code
    unit is kept. *)
Definition BasicLatinUpperCase : UpperCase :=
  {| toUpperCase := List.map asciiUpper;
     toUpperCase_ascii := fun s _ => eq_refl |}.

End JsString.

Import JsString.

(** ** The two regular expressions of the classifier *)

Module Regex.

(** The fragment of regular expressions the store uses: character
    classes, concatenation, alternation and [+]. *)
Inductive re : Type :=
| Void
| Eps
| Cls (p : N -> bool)
| Cat (a b : re)
| Alt (a b : re)
| Star (a : re).

Definition Plus (a : re) : re := Cat a (Star a).

Fixpoint nullable (r : re) : bool :=
  match r with
  | Void => false
  | Eps => true
  | Cls _ => false
  | Cat a b => nullable a && nullable b
  | Alt a b => nullable a || nullable b
  | Star _ => true
  end.

(** Brzozowski derivative of [r] by the code unit [c]. *)
Fixpoint deriv (c : N) (r : re) : re :=
  match r with
  | Void => Void
  | Eps => Void
  | Cls p => if p c then Eps else Void
  | Cat a b =>
      if nullable a then Alt (Cat (deriv c a) b) (deriv c b)
      else Cat (deriv c a) b
  | Alt a b => Alt (deriv c a) (deriv c b)
  | Star a => Cat (deriv c a) (Star a)
  end.

(** [/^r/.test(s)]: some prefix of [s] is matched by [r].  Neither
    expression carries the [g] flag, so [test] keeps no state. *)
Fixpoint test (r : re) (s : jsstring) : bool :=
  nullable r ||
  match s with
  | [] => false
  | c :: s' => test (deriv c r) s'
  end.

(** The strings a regular expression matches in full. *)
Inductive matches : re -> jsstring -> Prop :=
| matches_eps : matches Eps []
| matches_cls (p : N -> bool) (c : N) :
    p c = true -> matches (Cls p) [c]
| matches_cat (a b : re) (s t : jsstring) :
    matches a s -> matches b t -> matches (Cat a b) (s ++ t)
| matches_alt_l (a b : re) (s : jsstring) :
    matches a s -> matches (Alt a b) s
| matches_alt_r (a b : re) (s : jsstring) :
    matches b s -> matches (Alt a b) s
| matches_star_nil (a : re) : matches (Star a) []
| matches_star_app (a : re) (s t : jsstring) :
    matches a s -> matches (Star a) t -> matches (Star a) (s ++ t).

(** Under the [i] flag (without [u]) a pattern character matches the code
    units with the same canonical form; for the Basic Latin characters of
    these patterns that is the character in either case. *)
Definition chr_i (c : N) : re :=
  Cls (fun x => (asciiUpper x =? asciiUpper c)%N).

Definition lit_i (s : string) : re :=
  fold_right (fun c r => Cat (chr_i c) r) Eps (js s).

Definition alts (rs : list re) : re := fold_right Alt Void rs.

(** [\w] is [[A-Za-z0-9_]]. *)
Definition isWordChar (c : N) : bool :=
  (((65 <=? c) && (c <=? 90)) || ((97 <=? c) && (c <=? 122))
   || ((48 <=? c) && (c <=? 57)) || (c =? 95))%N.

(** [/^(INT\.|EXT\.|INT\/EXT\.|I\/E\.|INT\.\/EXT\.|EXT\.\/INT\.)/i] *)
Definition sceneHeadingRe : re :=
  alts [lit_i "INT."; lit_i "EXT."; lit_i "INT/EXT."; lit_i "I/E.";
        lit_i "INT./EXT."; lit_i "EXT./INT."].

(** [/^(REVEAL|CUT TO|ON:|DISSOLVE TO|FADE|PAN TO|[\w\s]+\s+(says|turns|moves|walks|looks|stares|enters|exits)\s)/i] *)
Definition actionIndicatorRe : re :=
  alts [lit_i "REVEAL"; lit_i "CUT TO"; lit_i "ON:"; lit_i "DISSOLVE TO";
        lit_i "FADE"; lit_i "PAN TO";
        Cat (Plus (Cls (fun c => isWordChar c || isWhiteSpace c)))
          (Cat (Plus (Cls isWhiteSpace))
             (Cat (alts [lit_i "says"; lit_i "turns"; lit_i "moves";
                         lit_i "walks"; lit_i "looks"; lit_i "stares";
                         lit_i "enters"; lit_i "exits"])
                (Cls isWhiteSpace)))].

End Regex.

Import Regex.

(** ** JavaScript arrays *)

Module JsArray.

(** The relative-index rule of [Array.prototype.slice]: a negative index
    counts from the end, and the result is clamped to [0 .. len]. *)
Definition relIndex (len k : Z) : Z :=
  if k <? 0 then Z.max (len + k) 0 else Z.min k len.

(** [a.slice(start, end)] *)
Definition slice {A : Type} (a : list A) (start end_ : Z) : list A :=
  let len := Z.of_nat (length a) in
  let k := relIndex len start in
  let final := relIndex len end_ in
  take (Z.to_nat (final - k)) (drop (Z.to_nat k) a).

(** [a.slice(start)]: the end defaults to the length. *)
Definition sliceFrom {A : Type} (a : list A) (start : Z) : list A :=
  slice a start (Z.of_nat (length a)).

End JsArray.

Import JsArray.

(** ** The store *)

Module Store.

Inductive LineType : Type :=
| dialogue | action | heading | character | parenthetical.

#[export] Instance LineType_eq_dec : EqDecision LineType.
Proof. solve_decision. Defined.

Record ScriptLine : Type := {
  type : LineType;
  content : jsstring;
  original_text : jsstring
}.

Record Scene : Type := {
  name : jsstring;
  lineIndex : Z
}.

Inductive FileFormat : Type := pdf | fdx.

Record Selection : Type := {
  text : jsstring;
  sel_startIndex : Z;
  sel_endIndex : Z
}.

(** [timestamp] is the epoch time of the [Date]. *)
Record EditHistoryEntry : Type := {
  id : jsstring;
  timestamp : Z;
  startIndex : Z;
  endIndex : Z;
  originalLines : list ScriptLine;
  newLines : list ScriptLine;
  originalText : jsstring;
  newText : jsstring;
  prompt : jsstring
}.

(** The data fields of [ScriptState].  [L] is what a cell of the [lines]
    array holds: a [ScriptLine] in every state the interface describes;
    [updateLine] alone can leave other things there. *)
Record State (L : Type) : Type := {
  lines : list L;
  characters : list jsstring;
  scenes : list Scene;
  fileFormat : option FileFormat;
  selection : option Selection;
  editHistory : list EditHistoryEntry;
  isLoading : bool;
  error : option jsstring
}.

Arguments lines {L} _.
Arguments characters {L} _.
Arguments scenes {L} _.
Arguments fileFormat {L} _.
Arguments selection {L} _.
Arguments editHistory {L} _.
Arguments isLoading {L} _.
Arguments error {L} _.

Abbreviation ScriptState := (State ScriptLine).

(** The state [create] starts from. *)
Definition initialState : ScriptState :=
  {| lines := []; characters := []; scenes := []; fileFormat := None;
     selection := None; editHistory := []; isLoading := false;
     error := None |}.

(** *** The line classifier *)

Section Classifier.

Context {U : UpperCase}.

Definition detectType (content : jsstring) (prevType : option LineType)
  : LineType :=
  let trimmed := trim content in
  if test sceneHeadingRe trimmed && bool_decide (trimmed = toUpperCase trimmed)
  then heading
  else if startsWith trimmed 40%N && endsWith trimmed 41%N
  then parenthetical
  else if bool_decide (trimmed = toUpperCase trimmed)
          && (length trimmed <=? 45)%nat
          && negb (includes trimmed 46%N)
  then character
  else if bool_decide (prevType = Some character)
          || bool_decide (prevType = Some parenthetical)
  then dialogue
  else if bool_decide (prevType = Some dialogue)
  then (if test actionIndicatorRe trimmed then action else dialogue)
  else action.

(** [newContent.split('\n').filter(l => l.trim())] *)
Definition contentLines (newContent : jsstring) : list jsstring :=
  List.filter (fun l => truthy (trim l)) (split LF newContent).

(** The [map] over [contentLines]; [prevType] is the variable the
    callback reads and overwrites. *)
Fixpoint mapLines (prevType : option LineType) (cl : list jsstring)
  : list ScriptLine :=
  match cl with
  | [] => []
  | content :: rest =>
      let type := detectType content prevType in
      {| type := type; content := trim content; original_text := content |}
      :: mapLines (Some type) rest
  end.

(** [prevType] is initialised to [null]. *)
Definition newLineObjects (newContent : jsstring) : list ScriptLine :=
  mapLines None (contentLines newContent).

End Classifier.

(** *** The mutation API *)

Definition setScript (lines : list ScriptLine) (characters : list jsstring)
    (scenes : list Scene) (fileFormat : option FileFormat)
    (state : ScriptState) : ScriptState :=
  {| lines := lines; characters := characters; scenes := scenes;
     fileFormat := fileFormat; selection := selection state;
     editHistory := []; isLoading := isLoading state; error := None |}.

Definition clearScript (state : ScriptState) : ScriptState :=
  {| lines := []; characters := []; scenes := []; fileFormat := None;
     selection := None; editHistory := []; isLoading := isLoading state;
     error := None |}.

Definition setSelection (text : jsstring) (startIndex endIndex : Z)
    (state : ScriptState) : ScriptState :=
  {| lines := lines state; characters := characters state;
     scenes := scenes state; fileFormat := fileFormat state;
     selection := Some {| text := text; sel_startIndex := startIndex;
                          sel_endIndex := endIndex |};
     editHistory := editHistory state; isLoading := isLoading state;
     error := error state |}.

Definition clearSelection (state : ScriptState) : ScriptState :=
  {| lines := lines state; characters := characters state;
     scenes := scenes state; fileFormat := fileFormat state;
     selection := None;
     editHistory := editHistory state; isLoading := isLoading state;
     error := error state |}.

(** What a cell of the array built by [updateLine] can hold. *)
Inductive Cell : Type :=
| Line (l : ScriptLine)
| Hole
| ContentOnly (content : jsstring).

(** [{ ...newLines[index], content: newContent }] for a line that exists. *)
Definition withContent (l : ScriptLine) (newContent : jsstring) : ScriptLine :=
  {| type := type l; content := newContent;
     original_text := original_text l |}.

(** [newLines[index] = ...] on the copy [[...state.lines]].  Inside the
    array the cell is overwritten.  Past the end the assignment extends
    the array: the cells in between stay empty, and the new cell is the
    spread of [undefined] plus [content], an object with no [type] and no
    [original_text].  A negative index, or one from [2^32 - 1] on, is not
    an array index: it names a plain property and no cell changes. *)
Definition assignContent (newLines : list ScriptLine) (index : Z)
    (newContent : jsstring) : list Cell :=
  if index <? 0 then Line <$> newLines
  else match newLines !! Z.to_nat index with
       | Some l =>
           Line <$> <[Z.to_nat index := withContent l newContent]> newLines
       | None =>
           if index <? 4294967295
           then (Line <$> newLines)
                  ++ replicate (Z.to_nat index - length newLines) Hole
                  ++ [ContentOnly newContent]
           else Line <$> newLines
       end.

Definition updateLine (index : Z) (newContent : jsstring)
    (state : ScriptState) : State Cell :=
  {| lines := assignContent (lines state) index newContent;
     characters := characters state; scenes := scenes state;
     fileFormat := fileFormat state; selection := selection state;
     editHistory := editHistory state; isLoading := isLoading state;
     error := error state |}.

Section Replace.

Context {U : UpperCase}.

(** The default of the optional [prompt] parameter. *)
Definition promptOrDefault (prompt : option jsstring) : jsstring :=
  default (js "Manual edit") prompt.

(** The history entry [replaceLines] builds.  [editId] stands for the
    template string made from [Date.now()] and [Math.random()], and [now]
    for [new Date()]: both come from the host, so they are inputs here. *)
Definition editEntry (startIndex endIndex : Z) (newContent : jsstring)
    (prompt : option jsstring) (editId : jsstring) (now : Z)
    (state : ScriptState) : EditHistoryEntry :=
  let originalLines := slice (lines state) startIndex (endIndex + 1) in
  {| id := editId;
     timestamp := now;
     startIndex := startIndex;
     endIndex := endIndex;
     originalLines := originalLines;
     newLines := newLineObjects newContent;
     originalText := join [LF] (content <$> originalLines);
     newText := newContent;
     prompt := promptOrDefault prompt |}.

Definition replaceLines (startIndex endIndex : Z) (newContent : jsstring)
    (prompt : option jsstring) (editId : jsstring) (now : Z)
    (state : ScriptState) : ScriptState :=
  let newLineObjects := newLineObjects newContent in
  let editEntry :=
    editEntry startIndex endIndex newContent prompt editId now state in
  let newLines :=
    slice (lines state) 0 startIndex
      ++ newLineObjects
      ++ sliceFrom (lines state) (endIndex + 1) in
  {| lines := newLines;
     characters := characters state; scenes := scenes state;
     fileFormat := fileFormat state; selection := selection state;
     editHistory := slice (editEntry :: editHistory state) 0 50;
     isLoading := isLoading state; error := error state |}.

End Replace.

(** [findIndex] returns the first position whose entry has the id, and
    [-1] (here [None]) when there is none; the updater then hands the
    state back unchanged. *)
Definition undoEdit (editId : jsstring) (state : ScriptState) : ScriptState :=
  match list_find (fun e => id e = editId) (editHistory state) with
  | None => state
  | Some (_, edit) =>
      let newLines :=
        slice (lines state) 0 (startIndex edit)
          ++ originalLines edit
          ++ sliceFrom (lines state)
               (startIndex edit + Z.of_nat (length (newLines edit))) in
      let newHistory :=
        filter (fun e => id e <> editId) (editHistory state) in
      {| lines := newLines;
         characters := characters state; scenes := scenes state;
         fileFormat := fileFormat state; selection := selection state;
         editHistory := newHistory;
         isLoading := isLoading state; error := error state |}
  end.

Definition clearHistory (state : ScriptState) : ScriptState :=
  {| lines := lines state; characters := characters state;
     scenes := scenes state; fileFormat := fileFormat state;
     selection := selection state;
     editHistory := []; isLoading := isLoading state;
     error := error state |}.

Definition setLoading (loading : bool) (state : ScriptState) : ScriptState :=
  {| lines := lines state; characters := characters state;
     scenes := scenes state; fileFormat := fileFormat state;
     selection := selection state;
     editHistory := editHistory state; isLoading := loading;
     error := error state |}.

Definition setError (err : option jsstring) (state : ScriptState)
  : ScriptState :=
  {| lines := lines state; characters := characters state;
     scenes := scenes state; fileFormat := fileFormat state;
     selection := selection state;
     editHistory := editHistory state; isLoading := isLoading state;
     error := err |}.

(** *** The store as a transition system *)

(** One constructor per function of the store. *)
Inductive Action : Type :=
| SetScript (lines : list ScriptLine) (characters : list jsstring)
    (scenes : list Scene) (fileFormat : option FileFormat)
| ClearScript
| SetSelection (text : jsstring) (startIndex endIndex : Z)
| ClearSelection
| UpdateLine (index : Z) (newContent : jsstring)
| ReplaceLines (startIndex endIndex : Z) (newContent : jsstring)
    (prompt : option jsstring) (editId : jsstring) (now : Z)
| UndoEdit (editId : jsstring)
| ClearHistory
| SetLoading (loading : bool)
| SetError (err : option jsstring).

(** A state of well-formed lines seen as a state of cells. *)
Definition cells (state : ScriptState) : State Cell :=
  {| lines := Line <$> lines state;
     characters := characters state; scenes := scenes state;
     fileFormat := fileFormat state; selection := selection state;
     editHistory := editHistory state; isLoading := isLoading state;
     error := error state |}.

Definition dispatch {U : UpperCase} (a : Action) (state : ScriptState)
  : State Cell :=
  match a with
  | SetScript l c sc f => cells (setScript l c sc f state)
  | ClearScript => cells (clearScript state)
  | SetSelection t s e => cells (setSelection t s e state)
  | ClearSelection => cells (clearSelection state)
  | UpdateLine i c => updateLine i c state
  | ReplaceLines s e c p i n => cells (replaceLines s e c p i n state)
  | UndoEdit i => cells (undoEdit i state)
  | ClearHistory => cells (clearHistory state)
  | SetLoading b => cells (setLoading b state)
  | SetError e => cells (setError e state)
  end.

(** A run of [replaceLines] calls, first call first. *)
Record ReplaceCall : Type := {
  rc_startIndex : Z;
  rc_endIndex : Z;
  rc_newContent : jsstring;
  rc_prompt : option jsstring;
  rc_editId : jsstring;
  rc_now : Z
}.

Section Runs.

Context {U : UpperCase}.

Definition call (c : ReplaceCall) (state : ScriptState) : ScriptState :=
  replaceLines (rc_startIndex c) (rc_endIndex c) (rc_newContent c)
    (rc_prompt c) (rc_editId c) (rc_now c) state.

Definition created (c : ReplaceCall) (state : ScriptState)
  : EditHistoryEntry :=
  editEntry (rc_startIndex c) (rc_endIndex c) (rc_newContent c)
    (rc_prompt c) (rc_editId c) (rc_now c) state.

(** The state after the calls, and the entries they created in the order
    of creation. *)
Fixpoint run (cs : list ReplaceCall) (state : ScriptState)
  : ScriptState * list EditHistoryEntry :=
  match cs with
  | [] => (state, [])
  | c :: cs' =>
      let (final, es) := run cs' (call c state) in
      (final, created c state :: es)
  end.

End Runs.

End Store.

Import Store.

(** ** Concrete documents and texts *)

Module Scenario.

Definition mkLine (t : LineType) (s : string) : ScriptLine :=
  {| type := t; content := js s; original_text := js s |}.

(** A four-line scene; the line at index 2 is a dialogue line. *)
Definition officeScene : list ScriptLine :=
  [ mkLine heading "INT. OFFICE - DAY";
    mkLine character "MARY";
    mkLine dialogue "Are you coming?";
    mkLine action "She waits by the door." ].

Definition officeState : ScriptState :=
  setScript officeScene [js "MARY"]
    [{| name := js "INT. OFFICE - DAY"; lineIndex := 0 |}] (Some pdf)
    initialState.

(** The same document while its dialogue line is selected. *)
Definition officeSelected : ScriptState :=
  setSelection (js "Are you coming?") 2 2 officeState.

Definition kitchenText : jsstring :=
  js "INT. KITCHEN - DAY" ++ [LF] ++ js "JOHN" ++ [LF]
    ++ js "(whispering)" ++ [LF] ++ js "We need to leave now.".

Definition streetText : jsstring :=
  js "Fine. Let's go." ++ [LF] ++ js "CUT TO:" ++ [LF]
    ++ js "EXT. STREET - NIGHT".

(** Sixty calls that each rewrite line 0, told apart by their clock. *)
Definition sixtyCalls : list ReplaceCall :=
  (fun n : nat =>
     {| rc_startIndex := 0; rc_endIndex := 0;
        rc_newContent := js "She waits."; rc_prompt := None;
        rc_editId := js "edit"; rc_now := Z.of_nat n |}) <$> seq 0 60.

End Scenario.

Import Scenario.

(** ** Reading of the frame condition of [updateLine] *)

(** [after] is [before] with the [content] of the line at [index]
    replaced: the same number of lines, all of them lines, each with its
    old [type] and [original_text], and the old [content] everywhere but
    at [index]. *)
Definition onlyContentReplaced (index : Z) (newContent : jsstring)
    (before : list ScriptLine) (after : list Cell) : Prop :=
  exists ls : list ScriptLine,
    after = Line <$> ls
    /\ length ls = length before
    /\ forall (i : nat) (l : ScriptLine),
         before !! i = Some l ->
         ls !! i = Some (if decide (Z.of_nat i = index)
                         then withContent l newContent else l).

(** ** Sequences of edits and undos *)

Module Sessions.

(** The precondition the callers of [replaceLines] are to uphold. *)
Definition validRange (startIndex endIndex : Z) (state : ScriptState) : Prop :=
  0 <= startIndex /\ startIndex <= endIndex
  /\ endIndex < Z.of_nat (length (lines state)).

(** Every call of the run has a valid range in the state it meets. *)
Fixpoint validRun {U : UpperCase} (cs : list ReplaceCall)
    (state : ScriptState) : Prop :=
  match cs with
  | [] => True
  | c :: cs' =>
      validRange (rc_startIndex c) (rc_endIndex c) state
      /\ validRun cs' (call c state)
  end.

(** [undoEdit] for each id in turn, first id first. *)
Definition undoAll (editIds : list jsstring) (state : ScriptState)
  : ScriptState :=
  foldl (fun s editId => undoEdit editId s) state editIds.

End Sessions.

Import Sessions.

(** ** Prefixes up to letter case *)

Module CaseFold.

(** Equal once [a]-[z] are folded to [A]-[Z]. *)
Definition ciEqual (a b : jsstring) : bool :=
  bool_decide (asciiUpper <$> a = asciiUpper <$> b).

(** [pat] is a prefix of [s], up to the case of Basic Latin letters. *)
Definition ciPrefix (pat s : jsstring) : bool :=
  ciEqual pat (take (length pat) s).

(** The expression a literal of a pattern stands for under the [i]
    flag. *)
Definition lit (cs : jsstring) : re :=
  fold_right (fun c r => Cat (chr_i c) r) Eps cs.

Definition sceneHeadingPrefixes : list jsstring :=
  [js "INT."; js "EXT."; js "INT/EXT."; js "I/E."; js "INT./EXT.";
   js "EXT./INT."].

Definition transitionKeywords : list jsstring :=
  [js "REVEAL"; js "CUT TO"; js "ON:"; js "DISSOLVE TO"; js "FADE";
   js "PAN TO"].

Definition actionVerbs : list jsstring :=
  [js "says"; js "turns"; js "moves"; js "walks"; js "looks"; js "stares";
   js "enters"; js "exits"].

(** A subject, white space, one of the verbs, and a white space after it:
    what the last alternative of [actionIndicatorRe] is written for. *)
Definition subjectVerb (p : jsstring) : Prop :=
  exists (subject gap verb : jsstring) (w : N),
    p = subject ++ gap ++ verb ++ [w]
    /\ subject <> []
    /\ Forall (fun c => isWordChar c || isWhiteSpace c = true) subject
    /\ gap <> []
    /\ Forall (fun c => isWhiteSpace c = true) gap
    /\ (exists v, v ∈ actionVerbs /\ ciEqual v verb = true)
    /\ isWhiteSpace w = true.

End CaseFold.

Import CaseFold.

(** ** What the HTTP client reports *)

Module Axios.

(** [err.response?.data?.detail]: a string, another truthy value, or a
    falsy one ([undefined] when there is no response). *)
Inductive Detail : Type :=
| DetailString (s : jsstring)
| DetailTruthy
| DetailFalsy.

(** A rejected request: an axios error with its [detail] and its [code],
    or anything else that was thrown. *)
Inductive Failure : Type :=
| AxiosError (detail : Detail) (code : option jsstring)
| OtherError.

(** [err.code === 'ECONNREFUSED' || err.code === 'ERR_NETWORK'] *)
Definition unreachable (code : option jsstring) : bool :=
  bool_decide (code = Some (js "ECONNREFUSED"))
  || bool_decide (code = Some (js "ERR_NETWORK")).

End Axios.

Import Axios.

(** ** The rewrite panel ([RightPanel]) *)

Module RightPanel.

(** The [useState] cells of the component. *)
Record Panel : Type := {
  prompt : jsstring;
  isProcessing : bool;
  preview : option jsstring;
  error : option jsstring
}.

(** The body posted to [/rewrite]. *)
Record RewriteRequest : Type := {
  req_selection : jsstring;
  req_prompt : jsstring;
  req_context : jsstring;
  req_fileFormat : option FileFormat
}.

(** [a || b] on strings. *)
Definition orElse (a b : jsstring) : jsstring :=
  if truthy a then a else b.

(** [customPrompt || prompt] *)
Definition promptToUse (customPrompt : option jsstring) (panel : Panel)
  : jsstring :=
  match customPrompt with
  | Some p => orElse p (prompt panel)
  | None => prompt panel
  end.

(** The lines handed over as context: five before and five after the
    selection. *)
Definition contextWindow (sel : Selection) (lines : list ScriptLine)
  : list ScriptLine :=
  let startIdx := Z.max 0 (sel_startIndex sel - 5) in
  let endIdx := Z.min (Z.of_nat (length lines) - 1) (sel_endIndex sel + 5) in
  slice lines startIdx (endIdx + 1).

Definition contextLines (sel : Selection) (lines : list ScriptLine)
  : jsstring :=
  join [LF] (content <$> contextWindow sel lines).

(** What [handleRewrite] posts; [None] when it returns at its guard. *)
Definition rewriteRequest (customPrompt : option jsstring) (panel : Panel)
    (store : ScriptState) : option RewriteRequest :=
  let promptToUse := promptToUse customPrompt panel in
  match Store.selection store with
  | None => None
  | Some sel =>
      if truthy (trim promptToUse)
      then Some {| req_selection := text sel;
                   req_prompt := promptToUse;
                   req_context := contextLines sel (lines store);
                   req_fileFormat := fileFormat store |}
      else None
  end.

Inductive RewriteOutcome : Type :=
| Rewritten (rewritten_text : jsstring)
| RewriteFailed (f : Failure).

Definition rewriteErrorMessage (f : Failure) : jsstring :=
  match f with
  | AxiosError detail code =>
      let other :=
        if unreachable code
        then js "Cannot connect to server. Please check if the backend is running."
        else js "An error occurred. Please try again." in
      match detail with
      | DetailString s => if truthy s then s else other
      | DetailTruthy => js "Failed to rewrite. Please try again."
      | DetailFalsy => other
      end
  | OtherError => js "An unexpected error occurred."
  end.

(** [handleRewrite], from the click to the end of its [finally]. *)
Definition handleRewrite (customPrompt : option jsstring)
    (outcome : RewriteOutcome) (panel : Panel) (store : ScriptState)
  : Panel :=
  match rewriteRequest customPrompt panel store with
  | None => panel
  | Some _ =>
      let started :=
        {| prompt := prompt panel; isProcessing := true;
           preview := preview panel; error := None |} in
      let settled :=
        match outcome with
        | Rewritten rewritten_text =>
            {| prompt := prompt started; isProcessing := isProcessing started;
               preview := Some rewritten_text; error := error started |}
        | RewriteFailed f =>
            {| prompt := prompt started; isProcessing := isProcessing started;
               preview := preview started;
               error := Some (rewriteErrorMessage f) |}
        end in
      {| prompt := prompt settled; isProcessing := false;
         preview := preview settled; error := error settled |}
  end.

(** [handleApply]: the store call needs the id and the clock of the
    entry, as [replaceLines] does. *)
Definition handleApply {U : UpperCase} (editId : jsstring) (now : Z)
    (panel : Panel) (store : ScriptState) : Panel * ScriptState :=
  match preview panel, Store.selection store with
  | Some pv, Some sel =>
      if truthy pv
      then ({| prompt := []; isProcessing := isProcessing panel;
               preview := None; error := error panel |},
            clearSelection
              (replaceLines (sel_startIndex sel) (sel_endIndex sel) pv
                 (Some (orElse (prompt panel) (js "Style preset")))
                 editId now store))
      else (panel, store)
  | _, _ => (panel, store)
  end.

End RightPanel.

(** ** The upload form ([Upload]) *)

Module Upload.

Record File : Type := {
  name : jsstring;
  size : Z
}.

Definition asciiLower (c : N) : N :=
  if ((65 <=? c) && (c <=? 90))%N then (c + 32)%N else c.

(** [String.prototype.toLowerCase], with what it does to Basic Latin
    text. *)
Class LowerCase := {
  toLowerCase : jsstring -> jsstring;
  toLowerCase_ascii :
    forall s, Forall isAscii s -> toLowerCase s = List.map asciiLower s
}.

Definition BasicLatinLowerCase : LowerCase :=
  {| toLowerCase := List.map asciiLower;
     toLowerCase_ascii := fun s _ => eq_refl |}.

(** [s.endsWith(suffix)] *)
Definition endsWithString (s suffix : jsstring) : bool :=
  (length suffix <=? length s)%nat
  && bool_decide (drop (length s - length suffix) s = suffix).

Definition MAX_FILE_SIZE_MB : Z := 10.

(** [file.size / (1024 * 1024) > MAX_FILE_SIZE_MB].  Dividing an integer
    by a power of two is exact in binary floating point, so the test is
    the one on the rationals. *)
Definition tooLarge (file : File) : bool :=
  negb (Qle_bool (inject_Z (size file) / inject_Z (1024 * 1024))
          (inject_Z MAX_FILE_SIZE_MB)).

Definition detectFormat {L : LowerCase} (file : File) : option FileFormat :=
  let fileName := toLowerCase (name file) in
  if endsWithString fileName (js ".pdf") then Some pdf
  else if endsWithString fileName (js ".fdx") then Some fdx
  else None.

(** The answer of [/upload]; [scenes] may be missing. *)
Inductive UploadOutcome : Type :=
| Uploaded (lines : list ScriptLine) (characters : list jsstring)
    (scenes : option (list Scene))
| UploadFailed (f : Failure).

Definition uploadErrorMessage (f : Failure) : jsstring :=
  match f with
  | AxiosError detail code =>
      let other :=
        if unreachable code
        then js "Cannot connect to server. Please check if the backend is running."
        else js "Failed to upload script. Please try again." in
      match detail with
      | DetailString s => if truthy s then s else other
      | DetailTruthy => js "Failed to process file."
      | DetailFalsy => other
      end
  | OtherError => js "An unexpected error occurred."
  end.

(** [handleFileUpload], from the change event to the end of its
    [finally]; [file] is [event.target.files?.[0]]. *)
Definition handleFileUpload {L : LowerCase} (file : option File)
    (outcome : UploadOutcome) (state : ScriptState) : ScriptState :=
  match file with
  | None => state
  | Some file =>
      if tooLarge file
      then setError (Some (js "File too large. Maximum size is 10MB.")) state
      else
        let started := setError None (setLoading true state) in
        let fileFormat := detectFormat file in
        let settled :=
          match outcome with
          | Uploaded lines characters scenes =>
              setScript lines characters (default [] scenes) fileFormat
                started
          | UploadFailed f =>
              setError (Some (uploadErrorMessage f)) started
          end in
        setLoading false settled
  end.

End Upload.

(** ** The history list ([EditHistory]) *)

Module EditHistory.

(** [s.substring(start, end)]: both ends are clamped to the string and
    swapped when out of order. *)
Definition substring (s : jsstring) (start end_ : Z) : jsstring :=
  let len := Z.of_nat (length s) in
  let finalStart := Z.min (Z.max start 0) len in
  let finalEnd := Z.min (Z.max end_ 0) len in
  let from := Z.min finalStart finalEnd in
  let to := Z.max finalStart finalEnd in
  take (Z.to_nat (to - from)) (drop (Z.to_nat from) s).

Definition truncateText (text : jsstring) (maxLength : option Z)
  : jsstring :=
  let maxLength := default 50 maxLength in
  if Z.of_nat (length text) <=? maxLength then text
  else substring text 0 maxLength ++ js "...".

End EditHistory.

(** ** Taking a selection ([SelectionMenu], [ScriptViewer]) *)

Module SelectionMenu.

Record Range : Type := {
  start : Z;
  end_ : Z
}.

(** What [window.getSelection()] gives the handlers: nothing (no
    selection, or a collapsed one), or the selected text with, for each
    end of the range, the parsed [data-line-index] of the closest line
    element when there is one. *)
Inductive DomSelection : Type :=
| NoSelection
| Selected (text : jsstring) (startEl endEl : option Z).

Section Menu.

(** Screen coordinates of the menu. *)
Context {Pos : Type}.

Record Menu : Type := {
  position : option Pos;
  selectedText : jsstring;
  selectedRange : option Range
}.

Definition hide (menu : Menu) : Menu :=
  {| position := None; selectedText := selectedText menu;
     selectedRange := selectedRange menu |}.

(** The body of the [setTimeout] in [handleMouseUp]; [at_] is the place
    computed from the bounding rectangle. *)
Definition handleMouseUp (selection : DomSelection) (at_ : Pos) (menu : Menu)
  : Menu :=
  match selection with
  | NoSelection => hide menu
  | Selected text startEl endEl =>
      if truthy (trim text)
      then match startEl, endEl with
           | Some startIndex, Some endIndex =>
               {| position := Some at_;
                  selectedText := text;
                  selectedRange :=
                    Some {| start := Z.min startIndex endIndex;
                            end_ := Z.max startIndex endIndex |} |}
           | _, _ => hide menu
           end
      else hide menu
  end.

Definition handleAddToChat (menu : Menu) (state : ScriptState)
  : Menu * ScriptState :=
  match selectedRange menu with
  | Some range =>
      if truthy (selectedText menu)
      then (hide menu,
            setSelection (selectedText menu) (start range) (end_ range) state)
      else (menu, state)
  | None => (menu, state)
  end.

End Menu.

End SelectionMenu.

Module ScriptViewer.

Import SelectionMenu.

(** The [keydown] listener: Ctrl+L or Cmd+L sends the selection to the
    store. *)
Definition handleKeyDown (ctrlKey metaKey : bool) (key : jsstring)
    (selection : DomSelection) (state : ScriptState) : ScriptState :=
  if (ctrlKey || metaKey) && bool_decide (key = js "l")
  then match selection with
       | Selected text (Some startIndex) (Some endIndex) =>
           setSelection text (Z.min startIndex endIndex)
             (Z.max startIndex endIndex) state
       | _ => state
       end
  else state.

End ScriptViewer.

(** ** The matcher against the language of an expression *)

Module RegexFacts.

Lemma matches_cat_inv (a b : re) (w : jsstring) :
  matches (Cat a b) w ->
  exists s t, w = s ++ t /\ matches a s /\ matches b t.
Proof. intros H. inversion H; subst. eauto. Qed.

Lemma matches_alt_inv (a b : re) (w : jsstring) :
  matches (Alt a b) w -> matches a w \/ matches b w.
Proof. intros H. inversion H; subst; auto. Qed.

Lemma nullable_matches (r : re) : nullable r = true <-> matches r [].
Proof.
  induction r as [| |p|a IHa b IHb|a IHa b IHb|a IHa]; simpl.
  - split; [discriminate | intros H; inversion H].
  - split; [constructor | done].
  - split; [discriminate | intros H; inversion H].
  - rewrite andb_true_iff, IHa, IHb. split.
    + intros [Ha Hb]. exact (matches_cat a b [] [] Ha Hb).
    + intros (s & t & Heq & Ha & Hb)%matches_cat_inv.
      symmetry in Heq. apply app_eq_nil in Heq as [-> ->]. done.
  - rewrite orb_true_iff, IHa, IHb. split.
    + intros [H|H]; [by apply matches_alt_l | by apply matches_alt_r].
    + intros H. inversion H; subst; auto.
  - split; [constructor | done].
Qed.

(** A non-empty match of [a*] starts with a non-empty match of [a]. *)
Lemma matches_star_cons (a : re) (c : N) (s : jsstring) :
  matches (Star a) (c :: s) ->
  exists s1 s2, s = s1 ++ s2 /\ matches a (c :: s1) /\ matches (Star a) s2.
Proof.
  intros H. remember (Star a) as r eqn:Hr. remember (c :: s) as w eqn:Hw.
  revert s Hw.
  induction H as [| | | | | |a' u t Hu _ Ht IHt]; intros s' Hw;
    try discriminate.
  inversion Hr; subst a'. destruct u as [|c' u].
  - simpl in Hw. by apply IHt.
  - simpl in Hw. inversion Hw; subst. by exists u, t.
Qed.

Lemma deriv_matches (r : re) (c : N) (s : jsstring) :
  matches (deriv c r) s <-> matches r (c :: s).
Proof.
  revert s.
  induction r as [| |p|a IHa b IHb|a IHa b IHb|a IHa]; intros s; simpl.
  - split; intros H; inversion H.
  - split; intros H; inversion H.
  - destruct (p c) eqn:Hp; split; intros H; inversion H; subst.
    + by constructor.
    + constructor.
    + congruence.
  - assert (matches (Cat (deriv c a) b) s \/
            (matches a [] /\ matches b (c :: s))
            <-> matches (Cat a b) (c :: s)) as Hcat.
    { split.
      - intros [H|[Ha Hb]].
        + apply matches_cat_inv in H as (u & t & -> & Hu & Ht).
          apply IHa in Hu. exact (matches_cat a b (c :: u) t Hu Ht).
        + exact (matches_cat a b [] (c :: s) Ha Hb).
      - intros (u & t & Heq & Hu & Ht)%matches_cat_inv.
        destruct u as [|c' u]; simpl in Heq.
        + right. subst t. done.
        + left. inversion Heq; subst. apply IHa in Hu. by constructor. }
    destruct (nullable a) eqn:Hn.
    + rewrite <- Hcat. split.
      * intros [H|H]%matches_alt_inv; [by left|].
        right. split; [by apply nullable_matches | by apply IHb].
      * intros [H|[_ H]]; [by apply matches_alt_l|].
        apply matches_alt_r. by apply IHb.
    + rewrite <- Hcat. split; [by left|].
      intros [H|[H _]]; [done|].
      apply nullable_matches in H. congruence.
  - split; intros [H|H]%matches_alt_inv.
    + apply matches_alt_l. by apply IHa.
    + apply matches_alt_r. by apply IHb.
    + apply matches_alt_l. by apply IHa.
    + apply matches_alt_r. by apply IHb.
  - split.
    + intros (u & t & -> & Hu & Ht)%matches_cat_inv.
      apply IHa in Hu. exact (matches_star_app a (c :: u) t Hu Ht).
    + intros H. apply matches_star_cons in H as (u & t & -> & Hu & Ht).
      constructor; [by apply IHa | done].
Qed.

(** [test] answers whether some prefix of the string is matched. *)
Theorem test_matches_prefix (r : re) (s : jsstring) :
  test r s = true <-> exists p q, s = p ++ q /\ matches r p.
Proof.
  revert r. induction s as [|c s IH]; intros r; simpl.
  - rewrite orb_false_r, nullable_matches. split.
    + intros H. by exists [], [].
    + intros (p & q & Heq & H). symmetry in Heq.
      apply app_eq_nil in Heq as [-> ->]. done.
  - rewrite orb_true_iff, nullable_matches, IH. split.
    + intros [H|(p & q & -> & H)].
      * by exists [], (c :: s).
      * exists (c :: p), q. split; [done|]. by apply deriv_matches.
    + intros (p & q & Heq & H). destruct p as [|c' p]; simpl in Heq.
      * by left.
      * inversion Heq; subst. right. exists p, q.
        split; [done|]. by apply deriv_matches.
Qed.

End RegexFacts.

(** ** Facts about [slice] *)
Module SliceFacts.

Lemma slice_nonneg {A : Type} (a : list A) (i j : Z) :
  0 <= i -> 0 <= j ->
  slice a i j = take (Z.to_nat j - Z.to_nat i) (drop (Z.to_nat i) a).
Proof.
  intros Hi Hj. unfold slice, relIndex.
  destruct (Z.ltb_spec i 0) as [?|_]; [lia|].
  destruct (Z.ltb_spec j 0) as [?|_]; [lia|].
  destruct (Z_le_gt_dec i (Z.of_nat (length a))) as [Hle|Hgt].
  - rewrite (Z.min_l i) by lia.
    destruct (Z_le_gt_dec j (Z.of_nat (length a))) as [Hle'|Hgt'].
    + rewrite (Z.min_l j) by lia. f_equal. lia.
    + rewrite (Z.min_r j) by lia.
      rewrite !take_ge; [done| |]; rewrite length_drop; lia.
  - rewrite (Z.min_r i) by lia.
    rewrite !drop_ge by lia. by rewrite !take_nil.
Qed.

Lemma slice_prefix {A : Type} (a : list A) (j : Z) :
  0 <= j -> slice a 0 j = take (Z.to_nat j) a.
Proof.
  intros Hj. rewrite slice_nonneg by lia. simpl. f_equal. lia.
Qed.

Lemma sliceFrom_nonneg {A : Type} (a : list A) (i : Z) :
  0 <= i -> sliceFrom a i = drop (Z.to_nat i) a.
Proof.
  intros Hi. unfold sliceFrom. rewrite slice_nonneg by lia.
  apply take_ge. rewrite length_drop. lia.
Qed.


End SliceFacts.

(** ** Facts about the classifier *)

Module ClassifierFacts.

Lemma length_mapLines {U : UpperCase} (prevType : option LineType)
    (cl : list jsstring) :
  length (mapLines prevType cl) = length cl.
Proof.
  revert prevType. induction cl as [|c cl IH]; intros prevType; simpl.
  - reflexivity.
  - by rewrite IH.
Qed.

Lemma original_text_mapLines {U : UpperCase} (prevType : option LineType)
    (cl : list jsstring) :
  original_text <$> mapLines prevType cl = cl.
Proof.
  revert prevType. induction cl as [|c cl IH]; intros prevType; simpl.
  - reflexivity.
  - by rewrite IH.
Qed.

(** With no previous type, the two dialogue branches are closed. *)
Lemma detectType_null {U : UpperCase} (content : jsstring) :
  detectType content None = heading
  \/ detectType content None = parenthetical
  \/ detectType content None = character
  \/ detectType content None = action.
Proof.
  unfold detectType.
  repeat match goal with
         | |- context [if ?b then _ else _] => destruct b eqn:?
         end; auto; discriminate.
Qed.

(** The classifier reads [toUpperCase] only at the trimmed segment. *)
Lemma detectType_ext (U V : UpperCase) (content : jsstring)
    (prevType : option LineType) :
  @toUpperCase U (trim content) = @toUpperCase V (trim content) ->
  @detectType U content prevType = @detectType V content prevType.
Proof. unfold detectType. intros ->. reflexivity. Qed.

Lemma Forall_trimStart (P : N -> Prop) (s : jsstring) :
  Forall P s -> Forall P (trimStart s).
Proof.
  induction 1 as [|c s Hc Hs IH]; simpl; [constructor|].
  destruct (isWhiteSpace c); [exact IH | by constructor].
Qed.

Lemma Forall_trim (P : N -> Prop) (s : jsstring) :
  Forall P s -> Forall P (trim s).
Proof.
  intros H. unfold trim, trimEnd.
  apply Forall_rev, Forall_trimStart, Forall_rev, Forall_trimStart, H.
Qed.

Lemma Forall_split (P : N -> Prop) (sep : N) (s : jsstring) :
  Forall P s -> Forall (Forall P) (split sep s).
Proof.
  induction 1 as [|c s Hc Hs IH]; simpl.
  - repeat constructor.
  - destruct (c =? sep)%N.
    + by constructor.
    + destruct (split sep s) as [|seg segs].
      * repeat constructor; done.
      * inversion IH; subst. constructor; [by constructor | done].
Qed.

Lemma Forall_contentLines (P : N -> Prop) (s : jsstring) :
  Forall P s -> Forall (Forall P) (contentLines s).
Proof.
  intros H. unfold contentLines.
  apply Forall_forall. intros seg Hin%filter_In.
  destruct Hin as [Hin _].
  eapply (proj1 (Forall_forall _ _) (Forall_split P LF s H)), Hin.
Qed.

Lemma mapLines_ascii (U V : UpperCase) (prevType : option LineType)
    (cl : list jsstring) :
  Forall (Forall isAscii) cl ->
  @mapLines U prevType cl = @mapLines V prevType cl.
Proof.
  intros H. revert prevType.
  induction H as [|c cl Hc Hcl IH]; intros prevType; simpl; [done|].
  assert (@detectType U c prevType = @detectType V c prevType) as ->.
  { apply detectType_ext.
    rewrite !toUpperCase_ascii by (by apply Forall_trim). done. }
  by rewrite IH.
Qed.

(** On Basic Latin text every conforming [toUpperCase] classifies alike. *)
Lemma newLineObjects_ascii (U V : UpperCase) (newContent : jsstring) :
  forallb (fun c => c <? 128)%N newContent = true ->
  @newLineObjects U newContent = @newLineObjects V newContent.
Proof.
  intros H. unfold newLineObjects.
  apply mapLines_ascii, Forall_contentLines.
  apply Forall_forall. intros c Hc.
  rewrite forallb_forall in H. apply N.ltb_lt, H, Hc.
Qed.

End ClassifierFacts.

(** ** Facts about the splice and the history *)

Module StoreFacts.

Import SliceFacts.

(** Inside the document the splice of [replaceLines] is the usual one. *)
Lemma splice_valid {A : Type} (a new : list A) (s e : Z) :
  0 <= s -> s <= e -> e < Z.of_nat (length a) ->
  slice a 0 s ++ new ++ sliceFrom a (e + 1)
  = take (Z.to_nat s) a ++ new ++ drop (Z.to_nat (e + 1)) a.
Proof.
  intros Hs Hse He.
  by rewrite slice_prefix, sliceFrom_nonneg by lia.
Qed.

(** The snapshot of a valid range holds [e - s + 1] lines. *)
Lemma length_snapshot {A : Type} (a : list A) (s e : Z) :
  0 <= s -> s <= e -> e < Z.of_nat (length a) ->
  Z.of_nat (length (slice a s (e + 1))) = e - s + 1.
Proof.
  intros Hs Hse He. rewrite slice_nonneg by lia.
  rewrite length_take, length_drop. lia.
Qed.

(** Splicing the snapshot back where the new lines sit gives the
    sequence one started from. *)
Lemma splice_back {A : Type} (a new : list A) (s e : Z) :
  0 <= s -> s <= e -> e < Z.of_nat (length a) ->
  let spliced := slice a 0 s ++ new ++ sliceFrom a (e + 1) in
  slice spliced 0 s
    ++ slice a s (e + 1)
    ++ sliceFrom spliced (s + Z.of_nat (length new))
  = a.
Proof.
  intros Hs Hse He spliced. subst spliced.
  rewrite splice_valid by lia.
  rewrite slice_prefix, sliceFrom_nonneg, slice_nonneg by lia.
  rewrite take_app_length' by (rewrite length_take; lia).
  rewrite (app_assoc (take (Z.to_nat s) a) new).
  rewrite drop_app_length' by (rewrite length_app, length_take; lia).
  replace (Z.to_nat (e + 1)) with (Z.to_nat s + (Z.to_nat (e + 1) - Z.to_nat s))%nat
    at 2 by lia.
  rewrite <- drop_drop.
  by rewrite take_drop, take_drop.
Qed.

(** [.slice(0, 50)] keeps the first fifty entries. *)
Lemma history_push {U : UpperCase} (startIndex endIndex : Z)
    (newContent : jsstring) (prompt : option jsstring) (editId : jsstring)
    (now : Z) (state : ScriptState) :
  editHistory
    (replaceLines startIndex endIndex newContent prompt editId now state)
  = take 50
      (editEntry startIndex endIndex newContent prompt editId now state
         :: editHistory state).
Proof. unfold replaceLines. simpl editHistory. by rewrite slice_prefix by lia. Qed.

Lemma take_app_take {A : Type} (n : nat) (l k : list A) :
  take n (l ++ take n k) = take n (l ++ k).
Proof.
  revert n. induction l as [|x l IH]; intros n; simpl.
  - rewrite take_take. f_equal. lia.
  - destruct n as [|n]; simpl; [done|].
    f_equal. rewrite <- IH.
    destruct (decide (length l <= n)%nat) as [Hle|Hgt].
    + rewrite !take_app_ge by lia. f_equal.
      rewrite !take_take. f_equal. lia.
    + rewrite !take_app_le by lia. done.
Qed.

Lemma filter_all {A : Type} (P : A -> Prop) `{!forall x, Decision (P x)}
    (l : list A) :
  Forall P l -> filter P l = l.
Proof.
  induction 1 as [|x l Hx Hl IH]; [done|].
  rewrite filter_cons_True by done. by f_equal.
Qed.

Lemma run_cons {U : UpperCase} (c : ReplaceCall) (cs : list ReplaceCall)
    (state : ScriptState) :
  run (c :: cs) state
  = ((run cs (call c state)).1, created c state :: (run cs (call c state)).2).
Proof. simpl. by destruct (run cs (call c state)). Qed.

Lemma history_call {U : UpperCase} (c : ReplaceCall) (state : ScriptState) :
  editHistory (call c state) = take 50 (created c state :: editHistory state).
Proof. apply history_push. Qed.

(** The history after a run of calls from [state]: the entries the run
    created, newest first, in front of the old ones, cut at fifty. *)
Lemma history_run {U : UpperCase} (cs : list ReplaceCall)
    (state : ScriptState) :
  (length (editHistory state) <= 50)%nat ->
  editHistory (run cs state).1
  = take 50 (reverse (run cs state).2 ++ editHistory state).
Proof.
  revert state. induction cs as [|c cs IH]; intros state Hlen.
  - simpl. by rewrite take_ge.
  - rewrite run_cons. cbn [fst snd].
    rewrite IH by (rewrite history_call, length_take; lia).
    rewrite history_call, take_app_take.
    by rewrite reverse_cons, <- app_assoc.
Qed.

Lemma length_run {U : UpperCase} (cs : list ReplaceCall)
    (state : ScriptState) :
  length (run cs state).2 = length cs.
Proof.
  revert state. induction cs as [|c cs IH]; intros state; [done|].
  rewrite run_cons. cbn [snd length]. by rewrite IH.
Qed.

(** [undoEdit] with the id just used finds the entry [replaceLines] put
    at the head, whatever ids the older entries carry. *)
Lemma undoEdit_replaceLines {U : UpperCase} (state : ScriptState)
    (startIndex endIndex : Z) (newContent : jsstring)
    (prompt : option jsstring) (editId : jsstring) (now : Z) :
  0 <= startIndex -> startIndex <= endIndex ->
  endIndex < Z.of_nat (length (lines state)) ->
  lines
    (undoEdit editId
       (replaceLines startIndex endIndex newContent prompt editId now state))
  = lines state.
Proof.
  intros Hs Hse He. unfold undoEdit.
  rewrite history_push. simpl list_find.
  rewrite decide_True by done. simpl.
  apply (splice_back (lines state) (newLineObjects newContent)); done.
Qed.

(** What [undoEdit] leaves in the history, found or not. *)
Lemma history_undoEdit (editId : jsstring) (state : ScriptState) :
  editHistory (undoEdit editId state)
  = filter (fun e => id e <> editId) (editHistory state).
Proof.
  unfold undoEdit.
  destruct (list_find (fun e => id e = editId) (editHistory state))
    as [[k found]|] eqn:Hfind; [reflexivity|].
  apply list_find_None in Hfind.
  symmetry. by apply filter_all.
Qed.

End StoreFacts.

(** ** The model on small inputs *)

Module Checks.

Example sceneHeadingRe_cases :
  test sceneHeadingRe (js "int. kitchen") = true
  /\ test sceneHeadingRe (js "I/E. CAR") = true
  /\ test sceneHeadingRe (js "INTERIOR") = false
  /\ test sceneHeadingRe (js " INT. ROOM") = false.
Proof. vm_compute. repeat split. Qed.

Example actionIndicatorRe_cases :
  test actionIndicatorRe (js "He turns away") = true
  /\ test actionIndicatorRe (js "He turns") = false
  /\ test actionIndicatorRe (js "cut to: black") = true
  /\ test actionIndicatorRe (js " says x") = false
  /\ test actionIndicatorRe (js "a  says x") = true
  /\ test actionIndicatorRe (js "a, b says x") = false.
Proof. vm_compute. repeat split. Qed.

Example string_cases :
  trim ([9; 32] ++ js "a b" ++ [160; 10])%N = js "a b"
  /\ split LF (js "a" ++ [LF; LF] ++ js "b") = [js "a"; []; js "b"]
  /\ split LF [] = [[]]
  /\ join [LF] [js "a"; js "b"] = js "a" ++ [LF] ++ js "b"
  /\ contentLines (js "a" ++ [LF] ++ js "  " ++ [LF] ++ js " b")
     = [js "a"; js " b"].
Proof. vm_compute. repeat split. Qed.

Example slice_cases :
  slice [1; 2; 3; 4; 5] (-2) 10 = [4; 5]
  /\ slice [1; 2; 3; 4; 5] 1 (-1) = [2; 3; 4]
  /\ slice [1; 2; 3; 4; 5] 3 2 = []
  /\ sliceFrom [1; 2; 3] (-1) = [3]
  /\ sliceFrom [1; 2; 3] 7 = [].
Proof. vm_compute. repeat split. Qed.

(** Priority of the rules of [detectType]. *)
Example detectType_cases :
  let detect := detectType (U := BasicLatinUpperCase) in
  detect (js "Int. Kitchen") None = action
  /\ detect (js "(beat)") (Some dialogue) = parenthetical
  /\ detect (js "BOYFRIEND (CONT'D)") (Some action) = character
  /\ detect (js "MR. SMITH") (Some action) = action
  /\ detect (js "Hello there.") (Some character) = dialogue
  /\ detect (js "Hello there.") (Some parenthetical) = dialogue
  /\ detect (js "And another thing.") (Some dialogue) = dialogue
  /\ detect (js "She turns to him.") (Some dialogue) = action
  /\ detect (js "Hello there.") (Some heading) = action
  /\ detect (js "Hello there.") None = action.
Proof. vm_compute. repeat split. Qed.

Example updateLine_cases :
  lines (updateLine 1 (js "JOHN") officeState)
  = Line <$> [ mkLine heading "INT. OFFICE - DAY";
               {| type := character; content := js "JOHN";
                  original_text := js "MARY" |};
               mkLine dialogue "Are you coming?";
               mkLine action "She waits by the door." ]
  /\ lines (updateLine (-1) (js "x") officeState) = Line <$> officeScene
  /\ lines (updateLine 2 (js "x") initialState)
     = [Hole; Hole; ContentOnly (js "x")].
Proof. vm_compute. repeat split. Qed.

End Checks.

(** ** The properties of the specification *)

Import SliceFacts ClassifierFacts StoreFacts.

(** C1. Round trip of replace and undo.  For every document state and
    every range with [0 <= startIndex <= endIndex < len(lines)], the entry
    [replaceLines] creates is the head of the new history, and [undoEdit]
    with the id of that entry, called on the state [replaceLines] returned,
    gives back the line sequence the replace started from: the same lines,
    hence the same [content] line by line. *)
Theorem replace_undo_roundtrip {U : UpperCase} (state : ScriptState)
    (startIndex endIndex : Z) (newContent : jsstring)
    (prompt : option jsstring) (editId : jsstring) (now : Z) :
  0 <= startIndex -> startIndex <= endIndex ->
  endIndex < Z.of_nat (length (lines state)) ->
  let entry :=
    editEntry startIndex endIndex newContent prompt editId now state in
  let replaced :=
    replaceLines startIndex endIndex newContent prompt editId now state in
  editHistory replaced !! 0%nat = Some entry
  /\ content <$> lines (undoEdit (id entry) replaced)
     = content <$> lines state
  /\ lines (undoEdit (id entry) replaced) = lines state.
Proof.
  intros Hs Hse He entry replaced.
  assert (editHistory replaced = entry :: take 49 (editHistory state)) as Hh.
  { subst replaced. by rewrite history_push. }
  assert (lines (undoEdit (id entry) replaced) = lines state) as Hl
    by (by apply undoEdit_replaceLines).
  split; [by rewrite Hh|]. split; [by rewrite Hl | exact Hl].
Qed.

Lemma replace_undo_roundtrip_witness :
  0 <= 1 /\ 1 <= 2 /\ 2 < Z.of_nat (length (lines officeState))
  /\ lines
       (undoEdit (js "edit-1")
          (replaceLines (U := BasicLatinUpperCase) 1 2 streetText None
             (js "edit-1") 1700000000000 officeState))
     = lines officeState.
Proof.
  split; [lia|]. split; [lia|]. split; [simpl; lia|].
  apply (replace_undo_roundtrip (U := BasicLatinUpperCase) officeState 1 2
           streetText None (js "edit-1") 1700000000000);
    simpl; lia.
Defined.

(** C2. Postcondition of [undoEdit].  When no history entry has the id,
    the state is returned as it is.  When one has, with [edit] the first
    such entry, the new line sequence is
    [lines.slice(0, edit.startIndex) ++ edit.originalLines ++
     lines.slice(edit.startIndex + edit.newLines.length)],
    whatever the history and the lines are at that moment; for a recorded
    [startIndex] that is not negative these are the first [startIndex]
    lines and the lines from [startIndex + newLines.length] on.  In every
    case no entry with the id is left in the history, which is the old
    one without the entries of that id, and nothing else changes. *)
Theorem undoEdit_postcondition (editId : jsstring) (state : ScriptState) :
  ((forall e, e ∈ editHistory state -> id e <> editId) ->
   undoEdit editId state = state)
  /\ (forall (i : nat) (edit : EditHistoryEntry),
        editHistory state !! i = Some edit ->
        id edit = editId ->
        (forall j e, (j < i)%nat -> editHistory state !! j = Some e ->
                     id e <> editId) ->
        lines (undoEdit editId state)
        = slice (lines state) 0 (startIndex edit)
            ++ originalLines edit
            ++ sliceFrom (lines state)
                 (startIndex edit + Z.of_nat (length (newLines edit)))
        /\ (0 <= startIndex edit ->
            lines (undoEdit editId state)
            = take (Z.to_nat (startIndex edit)) (lines state)
                ++ originalLines edit
                ++ drop (Z.to_nat (startIndex edit) + length (newLines edit))
                     (lines state)))
  /\ (forall e, e ∈ editHistory (undoEdit editId state) -> id e <> editId)
  /\ editHistory (undoEdit editId state)
     = filter (fun e => id e <> editId) (editHistory state)
  /\ characters (undoEdit editId state) = characters state
  /\ scenes (undoEdit editId state) = scenes state
  /\ fileFormat (undoEdit editId state) = fileFormat state
  /\ selection (undoEdit editId state) = selection state
  /\ isLoading (undoEdit editId state) = isLoading state
  /\ error (undoEdit editId state) = error state.
Proof.
  assert (forall e, e ∈ filter (fun e => id e <> editId) (editHistory state)
                    -> id e <> editId) as Hgone.
  { intros e He%list_elem_of_filter. tauto. }
  unfold undoEdit.
  destruct (list_find (fun e => id e = editId) (editHistory state))
    as [[k found]|] eqn:Hfind.
  - apply list_find_Some in Hfind as (Hk & Hid & Hfirst).
    split.
    { intros Hnone. exfalso. eapply Hnone; [|exact Hid].
      eapply list_elem_of_lookup_2, Hk. }
    split; [|simpl; repeat split; auto].
    intros i edit Hi Hedit Hbefore. simpl lines.
    assert (i = k) as ->.
    { destruct (lt_eq_lt_dec i k) as [[Hlt|Heq]|Hgt]; [|exact Heq|].
      - exfalso. eapply Hfirst; eauto.
      - exfalso. eapply Hbefore; eauto. }
    assert (edit = found) as -> by congruence.
    split; [reflexivity|].
    intros Hnonneg.
    rewrite slice_prefix, sliceFrom_nonneg by lia.
    do 3 f_equal. lia.
  - apply list_find_None in Hfind.
    split; [reflexivity|].
    split.
    { intros i edit Hi Hedit _. exfalso.
      rewrite list.Forall_forall in Hfind.
      eapply Hfind; [|exact Hedit].
      eapply list_elem_of_lookup_2, Hi. }
    split.
    { intros e He. rewrite list.Forall_forall in Hfind. by apply Hfind. }
    split; [|repeat split].
    symmetry. apply filter_all. exact Hfind.
Qed.

(** C3. Line-count change.  For every line sequence, every range with
    [0 <= startIndex <= endIndex < len(lines)] and every text,
    [replaceLines] changes the number of lines by the number of lines the
    classifier makes minus [endIndex - startIndex + 1]; the classifier
    makes one line per segment of the text, split at line feeds, that is
    not empty once trimmed. *)
Theorem replaceLines_line_count {U : UpperCase} (state : ScriptState)
    (startIndex endIndex : Z) (newContent : jsstring)
    (prompt : option jsstring) (editId : jsstring) (now : Z) :
  0 <= startIndex -> startIndex <= endIndex ->
  endIndex < Z.of_nat (length (lines state)) ->
  Z.of_nat
    (length
       (lines
          (replaceLines startIndex endIndex newContent prompt editId now
             state)))
  = Z.of_nat (length (lines state))
    + (Z.of_nat (length (newLineObjects newContent))
       - (endIndex - startIndex + 1))
  /\ length (newLineObjects newContent)
     = length
         (List.filter (fun seg => truthy (trim seg)) (split LF newContent)).
Proof.
  intros Hs Hse He. split.
  - unfold replaceLines. simpl lines.
    rewrite splice_valid by lia.
    rewrite !length_app, length_take, length_drop. lia.
  - unfold newLineObjects. by rewrite length_mapLines.
Qed.

Lemma replaceLines_line_count_witness :
  0 <= 2 /\ 2 <= 2 /\ 2 < Z.of_nat (length (lines officeState))
  /\ Z.of_nat
       (length
          (lines
             (replaceLines (U := BasicLatinUpperCase) 2 2 streetText None
                (js "edit-1") 1700000000000 officeState)))
     = Z.of_nat (length (lines officeState))
       + (Z.of_nat
            (length (newLineObjects (U := BasicLatinUpperCase) streetText))
          - (2 - 2 + 1)).
Proof.
  split; [lia|]. split; [lia|]. split; [simpl; lia|].
  apply (replaceLines_line_count (U := BasicLatinUpperCase) officeState 2 2
           streetText None (js "edit-1") 1700000000000);
    simpl; lia.
Defined.

Lemma undoEdit_postcondition_witness :
  let state :=
    replaceLines (U := BasicLatinUpperCase) 2 2 streetText None
      (js "edit-1") 1700000000000 officeState in
  lines (undoEdit (js "edit-1") state)
  = take 2 (lines state) ++ [mkLine dialogue "Are you coming?"]
      ++ drop 5 (lines state).
Proof.
  intros state.
  destruct (undoEdit_postcondition (js "edit-1") state) as (_ & Hsome & _).
  destruct (Hsome 0%nat
              (editEntry (U := BasicLatinUpperCase) 2 2 streetText None
                 (js "edit-1") 1700000000000 officeState))
    as [_ Htake].
  - reflexivity.
  - reflexivity.
  - intros j e Hj. lia.
  - apply Htake. simpl. lia.
Defined.


(** C4. Bounded history.  Every operation of the store keeps
    [editHistory.length <= 50].  [replaceLines] puts its entry in front of
    the history and keeps the first fifty.  So after sixty [replaceLines]
    calls on a document whose history is empty the history holds fifty
    entries, and they are the entries of the last fifty calls, newest
    first. *)
Theorem history_bounded {U : UpperCase} :
  (forall (a : Action) (state : ScriptState),
      (length (editHistory state) <= 50)%nat ->
      (length (editHistory (dispatch a state)) <= 50)%nat)
  /\ (forall (startIndex endIndex : Z) (newContent : jsstring)
        (prompt : option jsstring) (editId : jsstring) (now : Z)
        (state : ScriptState),
        editHistory
          (replaceLines startIndex endIndex newContent prompt editId now
             state)
        = take 50
            (editEntry startIndex endIndex newContent prompt editId now
               state :: editHistory state))
  /\ (forall (cs : list ReplaceCall) (state : ScriptState),
        editHistory state = [] ->
        length cs = 60%nat ->
        length (run cs state).2 = 60%nat
        /\ length (editHistory (run cs state).1) = 50%nat
        /\ editHistory (run cs state).1
           = reverse (drop 10 (run cs state).2)).
Proof.
  split; [|split].
  - intros a state Hlen.
    destruct a; unfold dispatch, cells; cbn [editHistory].
    6: { rewrite history_push, length_take. lia. }
    6: { rewrite history_undoEdit.
         etrans; [apply length_filter | exact Hlen]. }
    all: simpl; first [exact Hlen | lia].
  - intros. apply history_push.
  - intros cs state Hempty Hcs.
    pose proof (length_run cs state) as Hes. rewrite Hcs in Hes.
    assert (editHistory (run cs state).1
            = reverse (drop 10 (run cs state).2)) as Hh.
    { rewrite history_run by (rewrite Hempty; simpl; lia).
      rewrite Hempty, app_nil_r, take_reverse, Hes. done. }
    split; [exact Hes|]. split; [|exact Hh].
    rewrite Hh, length_reverse, length_drop, Hes. done.
Qed.

Lemma history_bounded_witness :
  editHistory officeState = []
  /\ length sixtyCalls = 60%nat
  /\ length
       (editHistory
          (run (U := BasicLatinUpperCase) sixtyCalls officeState).1)
     = 50%nat.
Proof.
  split; [reflexivity|]. split; [reflexivity|].
  apply (proj2 (proj2 (history_bounded (U := BasicLatinUpperCase)))
           sixtyCalls officeState); reflexivity.
Defined.

(** C5, what the code does.  [replaceLines] checks nothing: for every call,
    also one whose indices break [0 <= startIndex <= endIndex <
    len(lines)], the entry is pushed (it becomes the head of the history,
    which is cut at fifty) and the lines become
    [lines.slice(0, startIndex) ++ newLines ++ lines.slice(endIndex + 1)]
    with the clamping of [slice].  When the indices are valid this is
    the splice [lines[0..startIndex) ++ newLines ++ lines(endIndex..end)],
    and the entry records the [endIndex - startIndex + 1] replaced
    lines. *)
Theorem replaceLines_unguarded {U : UpperCase} (state : ScriptState)
    (startIndex endIndex : Z) (newContent : jsstring)
    (prompt : option jsstring) (editId : jsstring) (now : Z) :
  let entry :=
    editEntry startIndex endIndex newContent prompt editId now state in
  let replaced :=
    replaceLines startIndex endIndex newContent prompt editId now state in
  editHistory replaced = take 50 (entry :: editHistory state)
  /\ editHistory replaced !! 0%nat = Some entry
  /\ lines replaced
     = slice (lines state) 0 startIndex
         ++ newLineObjects newContent
         ++ sliceFrom (lines state) (endIndex + 1)
  /\ (0 <= startIndex -> startIndex <= endIndex ->
      endIndex < Z.of_nat (length (lines state)) ->
      lines replaced
      = take (Z.to_nat startIndex) (lines state)
          ++ newLineObjects newContent
          ++ drop (Z.to_nat (endIndex + 1)) (lines state)
      /\ originalLines entry
         = take (Z.to_nat (endIndex - startIndex + 1))
             (drop (Z.to_nat startIndex) (lines state))
      /\ Z.of_nat (length (originalLines entry))
         = endIndex - startIndex + 1).
Proof.
  intros entry replaced.
  assert (editHistory replaced = take 50 (entry :: editHistory state)) as Hh
    by apply history_push.
  split; [exact Hh|]. split; [by rewrite Hh|]. split; [reflexivity|].
  intros Hs Hse He. split; [|split].
  - apply splice_valid; done.
  - subst entry. simpl originalLines. rewrite slice_nonneg by lia.
    f_equal. lia.
  - subst entry. simpl originalLines. by apply length_snapshot.
Qed.

Lemma replaceLines_unguarded_witness :
  0 <= 2 /\ 2 <= 2 /\ 2 < Z.of_nat (length (lines officeState))
  /\ lines
       (replaceLines (U := BasicLatinUpperCase) 2 2 streetText None
          (js "edit-1") 1700000000000 officeState)
     = take 2 (lines officeState)
         ++ newLineObjects (U := BasicLatinUpperCase) streetText
         ++ drop 3 (lines officeState).
Proof.
  split; [lia|]. split; [lia|]. split; [simpl; lia|].
  apply (replaceLines_unguarded (U := BasicLatinUpperCase) officeState 2 2
           streetText None (js "edit-1") 1700000000000);
    simpl; lia.
Defined.

(** C5, as stated, fails.  On the four-line document the call
    [replaceLines(1, 9, "She leaves.")] breaks [endIndex < len(lines)],
    and yet the lines and the history both change. *)
Lemma replaceLines_out_of_range_mutates :
  let replaced :=
    replaceLines (U := BasicLatinUpperCase) 1 9 (js "She leaves.") None
      (js "edit-1") 1700000000000 officeState in
  ~ (0 <= 1 /\ 1 <= 9 /\ 9 < Z.of_nat (length (lines officeState)))
  /\ lines replaced <> lines officeState
  /\ editHistory replaced <> editHistory officeState.
Proof.
  split; [|split].
  - simpl. lia.
  - intros H. apply (f_equal length) in H. vm_compute in H. discriminate H.
  - intros H. apply (f_equal length) in H. vm_compute in H. discriminate H.
Qed.

(** C6, evaluated.  [setScript] stores its four arguments, empties the
    history and clears the error, and it keeps the selection it finds:
    called while the dialogue line of the office scene is selected, it
    leaves that selection in place, where [clearScript] resets it. *)
Theorem setScript_keeps_selection :
  (forall (lines' : list ScriptLine) (characters' : list jsstring)
      (scenes' : list Scene) (fileFormat' : option FileFormat)
      (state : ScriptState),
      let loaded := setScript lines' characters' scenes' fileFormat' state in
      lines loaded = lines' /\ characters loaded = characters'
      /\ scenes loaded = scenes' /\ fileFormat loaded = fileFormat'
      /\ editHistory loaded = [] /\ error loaded = None
      /\ selection loaded = selection state)
  /\ selection (setScript [] [] [] None officeSelected)
     = Some {| text := js "Are you coming?";
               sel_startIndex := 2; sel_endIndex := 2 |}
  /\ selection (clearScript officeSelected) = None.
Proof.
  split; [|split]; [|reflexivity|reflexivity].
  intros. repeat split.
Qed.

(** C7. The classifier example.  The text
    ["INT. KITCHEN - DAY\nJOHN\n(whispering)\nWe need to leave now."]
    gives four lines, one per segment, of types heading, character,
    parenthetical and dialogue. *)
Theorem classify_kitchen_example {U : UpperCase} :
  type <$> newLineObjects kitchenText
  = [heading; character; parenthetical; dialogue]
  /\ original_text <$> newLineObjects kitchenText
     = [js "INT. KITCHEN - DAY"; js "JOHN"; js "(whispering)";
        js "We need to leave now."]
  /\ length (newLineObjects kitchenText) = 4%nat.
Proof.
  rewrite (newLineObjects_ascii U BasicLatinUpperCase)
    by (vm_compute; reflexivity).
  vm_compute. repeat split.
Qed.

(** C8, what the code does.  On every document whose line at index 2 is
    a dialogue line, [replaceLines(2, 2, "Fine. Let's go.\nCUT TO:\nEXT.
    STREET - NIGHT")] puts three lines at indices 2 to 4, of types action,
    character and heading, and [undoEdit] on the entry of that call gives
    the document back, with the dialogue line at index 2. *)
Theorem replace_street_example {U : UpperCase} (state : ScriptState)
    (d : ScriptLine) (prompt : option jsstring) (editId : jsstring)
    (now : Z) :
  lines state !! 2%nat = Some d ->
  type d = dialogue ->
  let replaced := replaceLines 2 2 streetText prompt editId now state in
  type <$> newLineObjects streetText = [action; character; heading]
  /\ lines replaced
     = take 2 (lines state) ++ newLineObjects streetText
         ++ drop 3 (lines state)
  /\ type <$> take 3 (drop 2 (lines replaced))
     = [action; character; heading]
  /\ lines (undoEdit editId replaced) = lines state
  /\ lines (undoEdit editId replaced) !! 2%nat = Some d.
Proof.
  intros Hd Hdialogue replaced.
  pose proof (lookup_lt_Some _ _ _ Hd) as Hlen.
  assert (type <$> newLineObjects streetText = [action; character; heading])
    as Htypes.
  { rewrite (newLineObjects_ascii U BasicLatinUpperCase)
      by (vm_compute; reflexivity).
    vm_compute. reflexivity. }
  assert (lines replaced
          = take 2 (lines state) ++ newLineObjects streetText
              ++ drop 3 (lines state)) as Hlines.
  { subst replaced.
    apply (splice_valid (lines state) (newLineObjects streetText) 2 2);
      lia. }
  assert (lines (undoEdit editId replaced) = lines state) as Hundo
    by (apply undoEdit_replaceLines; lia).
  split; [exact Htypes|]. split; [exact Hlines|].
  split; [|split; [exact Hundo | by rewrite Hundo]].
  rewrite Hlines.
  rewrite drop_app_length' by (rewrite length_take; lia).
  assert (length (newLineObjects streetText) = 3%nat) as Hthree.
  { apply (f_equal length) in Htypes. by rewrite length_fmap in Htypes. }
  rewrite take_app_length' by done. exact Htypes.
Qed.

Lemma replace_street_example_witness :
  lines officeState !! 2%nat = Some (mkLine dialogue "Are you coming?")
  /\ type (mkLine dialogue "Are you coming?") = dialogue
  /\ type
       <$> take 3
             (drop 2
                (lines
                   (replaceLines (U := BasicLatinUpperCase) 2 2 streetText
                      None (js "edit-1") 1700000000000 officeState)))
     = [action; character; heading].
Proof.
  split; [reflexivity|]. split; [reflexivity|].
  apply (replace_street_example (U := BasicLatinUpperCase) officeState
           (mkLine dialogue "Are you coming?") None (js "edit-1")
           1700000000000); reflexivity.
Defined.

(** C8, as stated, fails.  On the office scene, whose line at index 2 is
    a dialogue line, the three new lines do not have the types dialogue,
    then action or heading, then heading: the first one is an action line
    and the second a character line. *)
Lemma street_types_not_as_stated :
  let replaced :=
    replaceLines (U := BasicLatinUpperCase) 2 2 streetText None
      (js "edit-1") 1700000000000 officeState in
  type <$> lines officeState !! 2%nat = Some dialogue
  /\ ~ (exists t : LineType,
          (t = action \/ t = heading)
          /\ type <$> take 3 (drop 2 (lines replaced))
             = [dialogue; t; heading]).
Proof.
  split; [reflexivity|].
  intros (t & _ & H). vm_compute in H. discriminate H.
Qed.

(** C9. The rolling previous type starts as none in every call.  The
    lines [replaceLines] records and inserts are [mapLines None] of the
    kept segments, a function of the text alone: the state, and so the
    line before [startIndex], has no part in it.  Hence the line made from
    the first kept segment is typed by [detectType] with no previous type,
    which is never dialogue: it is heading, parenthetical, character or
    action. *)
Theorem first_segment_never_dialogue {U : UpperCase} (state : ScriptState)
    (startIndex endIndex : Z) (newContent : jsstring)
    (prompt : option jsstring) (editId : jsstring) (now : Z) :
  let entry :=
    editEntry startIndex endIndex newContent prompt editId now state in
  let replaced :=
    replaceLines startIndex endIndex newContent prompt editId now state in
  newLines entry = mapLines None (contentLines newContent)
  /\ lines replaced
     = slice (lines state) 0 startIndex
         ++ mapLines None (contentLines newContent)
         ++ sliceFrom (lines state) (endIndex + 1)
  /\ (forall content : jsstring, detectType content None <> dialogue)
  /\ (forall (first : jsstring) (rest : list jsstring),
        contentLines newContent = first :: rest ->
        exists (l : ScriptLine) (ls : list ScriptLine),
          newLines entry = l :: ls
          /\ original_text l = first
          /\ type l = detectType first None
          /\ type l <> dialogue
          /\ (type l = heading \/ type l = parenthetical
              \/ type l = character \/ type l = action)).
Proof.
  intros entry replaced.
  assert (forall content : jsstring, detectType content None <> dialogue)
    as Hnull.
  { intros content.
    destruct (detectType_null content) as [H|[H|[H|H]]];
      rewrite H; discriminate. }
  split; [reflexivity|]. split; [reflexivity|]. split; [exact Hnull|].
  intros first rest Hsegs.
  subst entry. simpl newLines. unfold newLineObjects. rewrite Hsegs.
  simpl mapLines. eexists _, _. split; [reflexivity|]. simpl.
  split; [reflexivity|]. split; [reflexivity|]. split; [apply Hnull|].
  apply detectType_null.
Qed.

Lemma first_segment_never_dialogue_witness :
  contentLines streetText
  = [js "Fine. Let's go."; js "CUT TO:"; js "EXT. STREET - NIGHT"]
  /\ exists (l : ScriptLine) (ls : list ScriptLine),
       newLines
         (editEntry (U := BasicLatinUpperCase) 2 2 streetText None
            (js "edit-1") 1700000000000 officeState)
       = l :: ls
       /\ original_text l = js "Fine. Let's go."
       /\ type l <> dialogue.
Proof.
  split; [reflexivity|].
  destruct (first_segment_never_dialogue (U := BasicLatinUpperCase)
              officeState 2 2 streetText None (js "edit-1") 1700000000000)
    as (_ & _ & _ & Hfirst).
  destruct (Hfirst (js "Fine. Let's go.")
              [js "CUT TO:"; js "EXT. STREET - NIGHT"] eq_refl)
    as (l & ls & Hl & Ho & _ & Hn & _).
  exists l, ls. auto.
Defined.

(** C10, what the code does.  For every index inside the line sequence,
    [updateLine] replaces the [content] of the line at that index and
    nothing else in the lines: no line is added, and every line keeps its
    [type] and [original_text].  An index that is negative, or [2^32 - 1]
    or more, changes no line.  For every index at all, no existing line
    at another index changes, no history entry is pushed, and the history,
    the selection, the error and the other fields stay as they are. *)
Theorem updateLine_frame (index : Z) (newContent : jsstring)
    (state : ScriptState) :
  (index < Z.of_nat (length (lines state)) \/ 4294967295 <= index ->
   onlyContentReplaced index newContent (lines state)
     (lines (updateLine index newContent state)))
  /\ (index < 0
      \/ (4294967295 <= index /\ Z.of_nat (length (lines state)) <= index) ->
      lines (updateLine index newContent state) = Line <$> lines state)
  /\ (forall (i : nat) (l : ScriptLine),
        lines state !! i = Some l -> Z.of_nat i <> index ->
        lines (updateLine index newContent state) !! i = Some (Line l))
  /\ editHistory (updateLine index newContent state) = editHistory state
  /\ selection (updateLine index newContent state) = selection state
  /\ error (updateLine index newContent state) = error state
  /\ characters (updateLine index newContent state) = characters state
  /\ scenes (updateLine index newContent state) = scenes state
  /\ fileFormat (updateLine index newContent state) = fileFormat state
  /\ isLoading (updateLine index newContent state) = isLoading state.
Proof.
  assert (index < 0 \/ Z.of_nat (length (lines state)) <= index ->
          onlyContentReplaced index newContent (lines state)
            (Line <$> lines state)) as Hkept.
  { intros Hout. exists (lines state).
    split; [reflexivity|]. split; [reflexivity|].
    intros i l Hi. apply lookup_lt_Some in Hi as Hlt.
    rewrite decide_False by lia. exact Hi. }
  split; [|split; [|split; [|repeat split]]].
  - intros Hin. simpl. unfold assignContent.
    destruct (Z.ltb_spec index 0) as [?|Hnonneg]; [apply Hkept; lia|].
    destruct (lines state !! Z.to_nat index) as [l|] eqn:Hl.
    + exists (<[Z.to_nat index := withContent l newContent]> (lines state)).
      split; [reflexivity|]. split; [apply length_insert|].
      intros i l' Hi. destruct (decide (Z.of_nat i = index)) as [Heq|Hne].
      * assert (i = Z.to_nat index) as -> by lia.
        rewrite list_lookup_insert_eq by (apply lookup_lt_Some in Hl; lia).
        congruence.
      * rewrite list_lookup_insert_ne by lia. exact Hi.
    + apply lookup_ge_None in Hl.
      destruct (Z.ltb_spec index 4294967295) as [?|_]; [lia|].
      apply Hkept. lia.
  - intros Hout. simpl. unfold assignContent.
    destruct (Z.ltb_spec index 0) as [?|Hnonneg]; [reflexivity|].
    destruct (lines state !! Z.to_nat index) as [l|] eqn:Hl.
    + apply lookup_lt_Some in Hl. lia.
    + destruct (Z.ltb_spec index 4294967295) as [?|_]; [lia|reflexivity].
  - intros i l Hi Hne. simpl. unfold assignContent.
    assert ((Line <$> lines state) !! i = Some (Line l)) as Hsame
      by (by rewrite list_lookup_fmap, Hi).
    destruct (Z.ltb_spec index 0) as [?|Hnonneg]; [exact Hsame|].
    destruct (lines state !! Z.to_nat index) as [l'|] eqn:Hl.
    + rewrite list_lookup_fmap, list_lookup_insert_ne by lia.
      by rewrite Hi.
    + destruct (index <? 4294967295); [|exact Hsame].
      rewrite lookup_app_l; [exact Hsame|].
      rewrite length_fmap. by eapply lookup_lt_Some.
Qed.

Lemma updateLine_frame_witness :
  0 <= 2 /\ 2 < Z.of_nat (length (lines officeState))
  /\ onlyContentReplaced 2 (js "Coming.") (lines officeState)
       (lines (updateLine 2 (js "Coming.") officeState)).
Proof.
  split; [lia|]. split; [simpl; lia|].
  apply (updateLine_frame 2 (js "Coming.") officeState). simpl. lia.
Defined.

(** C10, as stated, fails.  [updateLine(4, "Yes.")] on the four-line
    office scene adds a fifth cell, an object with a [content] and neither
    [type] nor [original_text]: the result is not the old sequence with
    one [content] replaced. *)
Lemma updateLine_past_end_extends :
  lines (updateLine 4 (js "Yes.") officeState)
  = (Line <$> officeScene) ++ [ContentOnly (js "Yes.")]
  /\ ~ onlyContentReplaced 4 (js "Yes.") (lines officeState)
         (lines (updateLine 4 (js "Yes.") officeState)).
Proof.
  split; [reflexivity|].
  intros (ls & Heq & Hlen & _).
  apply (f_equal length) in Heq. rewrite length_fmap, Hlen in Heq.
  vm_compute in Heq. discriminate Heq.
Qed.

(** ** Further properties of the store: undo *)

Module UndoFacts.

(** An id no entry carries leaves the state as it is. *)
Lemma undoEdit_absent (editId : jsstring) (state : ScriptState) :
  Forall (fun e => id e <> editId) (editHistory state) ->
  undoEdit editId state = state.
Proof.
  intros Hnone. unfold undoEdit.
  destruct (list_find (fun e => id e = editId) (editHistory state))
    as [[k found]|] eqn:Hfind; [|reflexivity].
  apply list_find_Some in Hfind as (Hk & Hid & _).
  rewrite list.Forall_forall in Hnone.
  exfalso. eapply Hnone; [|exact Hid].
  eapply list_elem_of_lookup_2, Hk.
Qed.

(** The entry at the head of the history is the one [undoEdit] takes when
    it carries the id. *)
Lemma undoEdit_head (editId : jsstring) (state : ScriptState)
    (e : EditHistoryEntry) (rest : list EditHistoryEntry) :
  editHistory state = e :: rest ->
  id e = editId ->
  lines (undoEdit editId state)
  = slice (lines state) 0 (startIndex e)
      ++ originalLines e
      ++ sliceFrom (lines state)
           (startIndex e + Z.of_nat (length (newLines e))).
Proof.
  intros Hh Hid. unfold undoEdit. rewrite Hh. simpl list_find.
  rewrite decide_True by done. reflexivity.
Qed.

Lemma undoAll_snoc (editIds : list jsstring) (editId : jsstring)
    (state : ScriptState) :
  undoAll (editIds ++ [editId]) state
  = undoEdit editId (undoAll editIds state).
Proof. unfold undoAll. by rewrite foldl_app. Qed.

Lemma history_undoAll (editIds : list jsstring) (state : ScriptState) :
  editHistory (undoAll editIds state)
  = filter (fun e => id e ∉ editIds) (editHistory state).
Proof.
  revert state. induction editIds as [|i editIds IH]; intros state.
  - simpl. symmetry. apply filter_all.
    apply list.Forall_forall. intros e _. apply not_elem_of_nil.
  - change (undoAll (i :: editIds) state)
      with (undoAll editIds (undoEdit i state)).
    rewrite IH, history_undoEdit, list_filter_filter.
    apply list_filter_iff. intros e. rewrite not_elem_of_cons. tauto.
Qed.

Lemma ids_created {U : UpperCase} (cs : list ReplaceCall)
    (state : ScriptState) :
  id <$> (run cs state).2 = rc_editId <$> cs.
Proof.
  revert state. induction cs as [|c cs IH]; intros state; [done|].
  rewrite run_cons. cbn [snd].
  rewrite !fmap_cons. by rewrite (IH (call c state)).
Qed.

Lemma filter_none {A : Type} (P : A -> Prop) `{!forall x, Decision (P x)}
    (l : list A) :
  Forall (fun x => ~ P x) l -> filter P l = [].
Proof.
  induction 1 as [|x l Hx Hl IH]; [done|].
  by rewrite filter_cons_False.
Qed.

End UndoFacts.

Import UndoFacts.

(** X1. A second [undoEdit] with the same id changes nothing: the first
    one has taken every entry of that id out of the history. *)
Theorem undoEdit_twice (editId : jsstring) (state : ScriptState) :
  undoEdit editId (undoEdit editId state) = undoEdit editId state.
Proof.
  apply undoEdit_absent. rewrite history_undoEdit.
  apply list.Forall_forall. intros e He%list_elem_of_filter. tauto.
Qed.

(** X2. Nothing can be undone once the history is gone: after
    [setScript], [clearScript] or [clearHistory], [undoEdit] with any id
    returns the state it is given, so an edit of a former document never
    reaches the new one. *)
Theorem undoEdit_after_reset (editId : jsstring) (state : ScriptState)
    (lines' : list ScriptLine) (characters' : list jsstring)
    (scenes' : list Scene) (fileFormat' : option FileFormat) :
  undoEdit editId (setScript lines' characters' scenes' fileFormat' state)
  = setScript lines' characters' scenes' fileFormat' state
  /\ undoEdit editId (clearScript state) = clearScript state
  /\ undoEdit editId (clearHistory state) = clearHistory state.
Proof. repeat split; apply undoEdit_absent; constructor. Qed.

(** X3. Undoing newest first restores the document.  After at most fifty
    [replaceLines] calls with pairwise different ids, each on a valid
    range of the document it meets, [undoEdit] on the ids from the last
    call back to the first gives back the lines the run started from,
    whatever the history held before. *)
Theorem undo_newest_first {U : UpperCase} (cs : list ReplaceCall)
    (state : ScriptState) :
  validRun cs state ->
  NoDup (rc_editId <$> cs) ->
  (length cs <= 50)%nat ->
  lines (undoAll (reverse (rc_editId <$> cs)) (run cs state).1)
  = lines state.
Proof.
  revert state. induction cs as [|c cs IH]; intros state Hvalid Hdup Hlen.
  - reflexivity.
  - destruct Hvalid as [(Hs & Hse & He) Hvalid].
    apply list.NoDup_cons in Hdup as [Hfresh Hdup].
    simpl in Hlen.
    rewrite run_cons. cbn [fst].
    change (rc_editId <$> c :: cs)
      with (rc_editId c :: (rc_editId <$> cs)).
    rewrite reverse_cons, undoAll_snoc.
    set (r := (run cs (call c state)).1).
    set (u := undoAll (reverse (rc_editId <$> cs)) r).
    assert (lines u = lines (call c state)) as Hlines
      by (apply IH; [done | done | lia]).
    assert (exists rest, editHistory u = created c state :: rest)
      as [rest Hhist].
    { subst u r. rewrite history_undoAll.
      rewrite history_run
        by (rewrite history_call, length_take; lia).
      rewrite history_call, take_app_take.
      rewrite take_app_ge by (rewrite length_reverse, length_run; lia).
      rewrite length_reverse, length_run.
      replace (50 - length cs)%nat with (S (49 - length cs)) by lia.
      rewrite firstn_cons, list.filter_app.
      rewrite filter_none.
      2:{ apply list.Forall_forall. intros e He' Hnot. apply Hnot.
          rewrite elem_of_reverse in He'. rewrite elem_of_reverse.
          rewrite <- (ids_created cs (call c state)).
          apply list_elem_of_fmap. exists e. split; [done | exact He']. }
      rewrite filter_cons_True.
      2:{ rewrite elem_of_reverse. exact Hfresh. }
      eexists. reflexivity. }
    rewrite (undoEdit_head (rc_editId c) u _ _ Hhist eq_refl), Hlines.
    apply (splice_back (lines state)
             (newLineObjects (rc_newContent c))); done.
Qed.

Lemma undo_newest_first_witness :
  let cs :=
    [ {| rc_startIndex := 2; rc_endIndex := 2; rc_newContent := streetText;
         rc_prompt := None; rc_editId := js "edit-1"; rc_now := 1 |};
      {| rc_startIndex := 0; rc_endIndex := 3; rc_newContent := kitchenText;
         rc_prompt := None; rc_editId := js "edit-2"; rc_now := 2 |} ] in
  lines
    (undoAll [js "edit-2"; js "edit-1"]
       (run (U := BasicLatinUpperCase) cs officeState).1)
  = lines officeState.
Proof.
  intros cs.
  apply (undo_newest_first (U := BasicLatinUpperCase) cs officeState).
  - vm_compute. repeat split; discriminate.
  - apply list.NoDup_cons. split.
    + intros Hin. apply list_elem_of_singleton in Hin. discriminate Hin.
    + apply NoDup_singleton.
  - simpl. lia.
Defined.

(** X4. An edit pushed out of the history cannot be undone.  Once fifty
    or more later edits with other ids have followed a call, [undoEdit]
    with the id of that call returns the state unchanged. *)
Theorem undo_evicted {U : UpperCase} (c : ReplaceCall)
    (cs : list ReplaceCall) (state : ScriptState) :
  (50 <= length cs)%nat ->
  rc_editId c ∉ (rc_editId <$> cs) ->
  undoEdit (rc_editId c) (run (c :: cs) state).1 = (run (c :: cs) state).1.
Proof.
  intros Hlen Hfresh. apply undoEdit_absent.
  rewrite run_cons. cbn [fst].
  rewrite history_run by (rewrite history_call, length_take; lia).
  rewrite take_app_le by (rewrite length_reverse, length_run; lia).
  apply list.Forall_forall. intros e He Hid.
  apply Hfresh. rewrite <- Hid, <- (ids_created cs (call c state)).
  apply list_elem_of_fmap. exists e. split; [done|].
  apply (subseteq_take 50) in He. by rewrite elem_of_reverse in He.
Qed.

Lemma undo_evicted_witness :
  let first :=
    {| rc_startIndex := 1; rc_endIndex := 1; rc_newContent := js "JOHN";
       rc_prompt := None; rc_editId := js "first"; rc_now := 0 |} in
  undoEdit (js "first")
    (run (U := BasicLatinUpperCase) (first :: sixtyCalls) officeState).1
  = (run (U := BasicLatinUpperCase) (first :: sixtyCalls) officeState).1.
Proof.
  intros first.
  apply (undo_evicted (U := BasicLatinUpperCase) first sixtyCalls officeState).
  - vm_compute. lia.
  - intros Hin. apply list_elem_of_fmap in Hin as (c & Hc & Hin).
    unfold sixtyCalls in Hin.
    apply list_elem_of_fmap in Hin as (n & -> & _).
    discriminate Hc.
Defined.

(** ** Further properties of the store: splices *)

Module SpliceFacts.

Lemma slice_app_prefix {A : Type} (p x : list A) (k : Z) :
  k = Z.of_nat (length p) -> slice (p ++ x) 0 k = p.
Proof.
  intros ->. rewrite slice_prefix by lia.
  rewrite Nat2Z.id. by rewrite take_app_length.
Qed.

Lemma sliceFrom_app {A : Type} (p x : list A) (k : Z) :
  k = Z.of_nat (length p) -> sliceFrom (p ++ x) k = x.
Proof.
  intros ->. rewrite sliceFrom_nonneg by lia.
  rewrite Nat2Z.id. by rewrite drop_app_length.
Qed.

Lemma slice_app_middle {A : Type} (p o x : list A) (i j : Z) :
  i = Z.of_nat (length p) -> j = Z.of_nat (length p + length o) ->
  slice (p ++ o ++ x) i j = o.
Proof.
  intros -> ->. rewrite slice_nonneg by lia.
  rewrite !Nat2Z.id, drop_app_length.
  replace (length p + length o - length p)%nat with (length o) by lia.
  by rewrite take_app_length.
Qed.

(** The splice of [replaceLines] on a sequence cut at the two indices. *)
Lemma splice_app {A : Type} (p o x new : list A) (s j : Z) :
  s = Z.of_nat (length p) -> j = Z.of_nat (length p + length o) ->
  slice (p ++ o ++ x) 0 s ++ new ++ sliceFrom (p ++ o ++ x) j
  = p ++ new ++ x.
Proof.
  intros Hs Hj. rewrite slice_app_prefix by done.
  rewrite (app_assoc p o x), sliceFrom_app; [done|].
  rewrite length_app. lia.
Qed.

Lemma lines_replaceLines {U : UpperCase} (startIndex endIndex : Z)
    (newContent : jsstring) (prompt : option jsstring) (editId : jsstring)
    (now : Z) (state : ScriptState) :
  lines (replaceLines startIndex endIndex newContent prompt editId now state)
  = slice (lines state) 0 startIndex
      ++ newLineObjects newContent
      ++ sliceFrom (lines state) (endIndex + 1).
Proof. reflexivity. Qed.

(** A valid range cuts the sequence in three. *)
Lemma cut_range {A : Type} (a : list A) (s e : Z) :
  0 <= s -> s <= e + 1 -> e < Z.of_nat (length a) ->
  exists p o x,
    a = p ++ o ++ x /\ Z.of_nat (length p) = s
    /\ Z.of_nat (length o) = e + 1 - s.
Proof.
  intros Hs Hse He.
  exists (take (Z.to_nat s) a),
         (take (Z.to_nat (e + 1 - s)) (drop (Z.to_nat s) a)),
         (drop (Z.to_nat (e + 1 - s)) (drop (Z.to_nat s) a)).
  split; [by rewrite !take_drop|].
  rewrite !length_take, length_drop. lia.
Qed.

Lemma undoEdit_second (editId : jsstring) (state : ScriptState)
    (e' e : EditHistoryEntry) (rest : list EditHistoryEntry) :
  editHistory state = e' :: e :: rest ->
  id e' <> editId ->
  id e = editId ->
  lines (undoEdit editId state)
  = slice (lines state) 0 (startIndex e)
      ++ originalLines e
      ++ sliceFrom (lines state)
           (startIndex e + Z.of_nat (length (newLines e))).
Proof.
  intros Hh Hne Hid. unfold undoEdit. rewrite Hh. simpl list_find.
  rewrite decide_False by done. simpl.
  rewrite decide_True by done. reflexivity.
Qed.

Lemma trimStart_blank (s : jsstring) :
  trimStart s = [] <-> Forall (fun c => isWhiteSpace c = true) s.
Proof.
  induction s as [|c s IH]; simpl.
  - split; [constructor | done].
  - destruct (isWhiteSpace c) eqn:Hc.
    + rewrite IH. split; [by constructor | by inversion 1].
    + split; [discriminate|]. inversion 1; congruence.
Qed.

Lemma Forall_of_trimStart (s : jsstring) :
  Forall (fun c => isWhiteSpace c = true) (trimStart s) ->
  Forall (fun c => isWhiteSpace c = true) s.
Proof.
  induction s as [|c s IH]; simpl; [done|].
  destruct (isWhiteSpace c) eqn:Hc; [|done].
  intros H. constructor; auto.
Qed.

Lemma trim_blank (s : jsstring) :
  trim s = [] <-> Forall (fun c => isWhiteSpace c = true) s.
Proof.
  unfold trim, trimEnd. split.
  - intros H. apply Forall_of_trimStart.
    apply (f_equal (@rev N)) in H. rewrite rev_involutive in H.
    simpl in H. apply trimStart_blank in H.
    apply Forall_rev in H. by rewrite rev_involutive in H.
  - intros H. apply trimStart_blank in H. by rewrite H.
Qed.

Lemma Forall_of_split (P : N -> Prop) (sep : N) (s : jsstring) :
  P sep -> Forall (Forall P) (split sep s) -> Forall P s.
Proof.
  intros Hsep. induction s as [|c s IH]; simpl; [constructor|].
  destruct (N.eqb_spec c sep) as [->|Hne].
  - inversion 1; subst. constructor; auto.
  - destruct (split sep s) as [|seg segs] eqn:Hsplit.
    + inversion 1 as [|? ? Hc _]; subst. inversion Hc; subst.
      constructor; [done|]. apply IH. constructor.
    + inversion 1 as [|? ? Hc Hsegs]; subst. inversion Hc; subst.
      constructor; [done|]. apply IH. by constructor.
Qed.

Lemma contentLines_blank (newContent : jsstring) :
  contentLines newContent = []
  <-> Forall (fun c => isWhiteSpace c = true) newContent.
Proof.
  unfold contentLines. split.
  - intros H. apply (Forall_of_split _ LF); [reflexivity|].
    apply list.Forall_forall. intros seg Hseg.
    apply trim_blank.
    destruct (trim seg) as [|c t] eqn:Ht; [done|]. exfalso.
    assert (In seg (List.filter (fun l => truthy (trim l))
                      (split LF newContent))) as Hin.
    { apply filter_In. split; [by apply list_elem_of_In|].
      by rewrite Ht. }
    by rewrite H in Hin.
  - intros H. apply (Forall_split _ LF) in H.
    induction H as [|seg segs Hseg Hsegs IH]; simpl; [done|].
    apply trim_blank in Hseg. by rewrite Hseg.
Qed.

End SpliceFacts.

Import SpliceFacts.

(** X5. Undoing an older edit under a later one.  Let a first edit
    replace a valid range, and a second edit, with another id, replace a
    range that starts at or after the end of the lines the first one
    inserted.  Then [undoEdit] with the id of the first edit gives the
    lines of the second edit applied alone to the original document, its
    range moved back by the line-count change of the first. *)
Theorem undo_older_before_later {U : UpperCase} (state : ScriptState)
    (s1 e1 s2 e2 : Z) (text1 text2 : jsstring)
    (prompt1 prompt2 : option jsstring) (id1 id2 : jsstring)
    (now1 now2 : Z) :
  let state1 := replaceLines s1 e1 text1 prompt1 id1 now1 state in
  let state2 := replaceLines s2 e2 text2 prompt2 id2 now2 state1 in
  let shift :=
    Z.of_nat (length (newLineObjects text1)) - (e1 - s1 + 1) in
  validRange s1 e1 state ->
  s1 + Z.of_nat (length (newLineObjects text1)) <= s2 ->
  validRange s2 e2 state1 ->
  id1 <> id2 ->
  validRange (s2 - shift) (e2 - shift) state
  /\ lines (undoEdit id1 state2)
     = lines
         (replaceLines (s2 - shift) (e2 - shift) text2 prompt2 id2 now2
            state).
Proof.
  intros state1 state2 shift (Hs1 & Hse1 & He1) Hbelow (Hs2 & Hse2 & He2) Hid.
  set (n1 := newLineObjects text1) in *.
  set (n2 := newLineObjects text2).
  destruct (cut_range (lines state) s1 e1) as (p & o & x & HA & Hp & Ho);
    [lia..|].
  assert (lines state1 = p ++ n1 ++ x) as H1.
  { subst state1. rewrite lines_replaceLines, HA.
    apply splice_app; lia. }
  rewrite H1, !length_app in He2.
  destruct (cut_range x (s2 - s1 - Z.of_nat (length n1))
              (e2 - s1 - Z.of_nat (length n1)))
    as (m & q & r & Hx & Hm & Hq); [lia..|].
  assert (lines state2 = p ++ n1 ++ m ++ n2 ++ r) as H2.
  { subst state2. rewrite lines_replaceLines, H1, Hx.
    rewrite (app_assoc n1 m), (app_assoc p (n1 ++ m)).
    rewrite splice_app by (rewrite !length_app; lia).
    by rewrite <- !app_assoc. }
  assert (Z.of_nat (length (lines state))
          = s1 + (e1 + 1 - s1) + Z.of_nat (length x)) as Hlen
    by (rewrite HA, !length_app; lia).
  assert (Z.of_nat (length x)
          = (s2 - s1 - Z.of_nat (length n1))
            + (e2 + 1 - s2) + Z.of_nat (length r)) as Hlenx
    by (rewrite Hx, !length_app; lia).
  split; [unfold validRange; subst shift; lia|].
  rewrite (undoEdit_second id1 state2
             (editEntry s2 e2 text2 prompt2 id2 now2 state1)
             (editEntry s1 e1 text1 prompt1 id1 now1 state)
             (take 48 (editHistory state))).
  - cbn [startIndex originalLines newLines editEntry]. fold n1.
    rewrite H2.
    rewrite (splice_app p n1 (m ++ n2 ++ r)) by lia.
    rewrite HA at 1. rewrite slice_app_middle by lia.
    rewrite lines_replaceLines. fold n2. rewrite HA, Hx.
    rewrite (app_assoc o m (q ++ r)), (app_assoc p (o ++ m) (q ++ r)).
    rewrite splice_app by (rewrite !length_app; subst shift; lia).
    by rewrite <- !app_assoc.
  - subst state2 state1. rewrite !history_push.
    cbn [firstn]. by rewrite take_take.
  - simpl. congruence.
  - reflexivity.
Qed.

Lemma undo_older_before_later_witness :
  let state1 :=
    replaceLines (U := BasicLatinUpperCase) 0 0 kitchenText None
      (js "edit-1") 1 officeState in
  let state2 :=
    replaceLines (U := BasicLatinUpperCase) 5 6 streetText None
      (js "edit-2") 2 state1 in
  lines (undoEdit (js "edit-1") state2)
  = lines
      (replaceLines (U := BasicLatinUpperCase) 2 3 streetText None
         (js "edit-2") 2 officeState).
Proof.
  intros state1 state2.
  apply (undo_older_before_later (U := BasicLatinUpperCase) officeState
           0 0 5 6 kitchenText streetText None None (js "edit-1")
           (js "edit-2") 1 2).
  - vm_compute. repeat split; discriminate.
  - vm_compute. discriminate.
  - vm_compute. repeat split; discriminate.
  - discriminate.
Defined.

(** X6. A blank replacement deletes the range.  The classifier makes no
    line exactly when every code unit of the text is white space (line
    feeds included); [replaceLines] with such a text on a valid range
    removes the lines of the range and inserts nothing, and the entry
    records no new line. *)
Theorem replaceLines_blank {U : UpperCase} (state : ScriptState)
    (startIndex endIndex : Z) (newContent : jsstring)
    (prompt : option jsstring) (editId : jsstring) (now : Z) :
  (newLineObjects newContent = []
   <-> Forall (fun c => isWhiteSpace c = true) newContent)
  /\ (validRange startIndex endIndex state ->
      Forall (fun c => isWhiteSpace c = true) newContent ->
      lines
        (replaceLines startIndex endIndex newContent prompt editId now state)
      = take (Z.to_nat startIndex) (lines state)
          ++ drop (Z.to_nat (endIndex + 1)) (lines state)
      /\ newLines
           (editEntry startIndex endIndex newContent prompt editId now state)
         = []).
Proof.
  assert (newLineObjects newContent = []
          <-> Forall (fun c => isWhiteSpace c = true) newContent) as Hblank.
  { rewrite <- contentLines_blank. unfold newLineObjects. split.
    - intros H. apply (f_equal length) in H.
      rewrite length_mapLines in H. by apply nil_length_inv.
    - by intros ->. }
  split; [exact Hblank|].
  intros (Hs & Hse & He) Hws. apply Hblank in Hws.
  split; [|exact Hws].
  rewrite lines_replaceLines, Hws.
  by rewrite slice_prefix, sliceFrom_nonneg by lia.
Qed.

Lemma replaceLines_blank_witness :
  lines
    (replaceLines (U := BasicLatinUpperCase) 1 2 ([32; 10; 9; 32]%N) None
       (js "edit-1") 1 officeState)
  = take 1 (lines officeState) ++ drop 3 (lines officeState).
Proof.
  apply (replaceLines_blank (U := BasicLatinUpperCase) officeState 1 2
           [32; 10; 9; 32]%N None (js "edit-1") 1).
  - vm_compute. repeat split; discriminate.
  - repeat constructor.
Defined.

(** X7. What [replaceLines] leaves alone.  On a valid range, the lines
    before the range stay where they are, the lines after it keep their
    order and move by the line-count change, the new lines sit from
    [startIndex] on, and the characters, the scenes, the file format, the
    selection, the loading flag and the error are untouched: the
    selection is not cleared and the scenes are not re-indexed. *)
Theorem replaceLines_elsewhere {U : UpperCase} (state : ScriptState)
    (startIndex endIndex : Z) (newContent : jsstring)
    (prompt : option jsstring) (editId : jsstring) (now : Z) :
  validRange startIndex endIndex state ->
  let replaced :=
    replaceLines startIndex endIndex newContent prompt editId now state in
  let added := length (newLineObjects newContent) in
  (forall i : nat,
      Z.of_nat i < startIndex -> lines replaced !! i = lines state !! i)
  /\ (forall k : nat,
        (k < added)%nat ->
        lines replaced !! (Z.to_nat startIndex + k)%nat
        = newLineObjects newContent !! k)
  /\ (forall i : nat,
        endIndex < Z.of_nat i ->
        lines replaced !! (Z.to_nat startIndex + added
                           + (i - Z.to_nat (endIndex + 1)))%nat
        = lines state !! i)
  /\ characters replaced = characters state
  /\ scenes replaced = scenes state
  /\ fileFormat replaced = fileFormat state
  /\ selection replaced = selection state
  /\ isLoading replaced = isLoading state
  /\ error replaced = error state.
Proof.
  intros (Hs & Hse & He) replaced added.
  assert (lines replaced
          = take (Z.to_nat startIndex) (lines state)
              ++ newLineObjects newContent
              ++ drop (Z.to_nat (endIndex + 1)) (lines state)) as Hl
    by (subst replaced; rewrite lines_replaceLines; by apply splice_valid).
  assert (length (take (Z.to_nat startIndex) (lines state))
          = Z.to_nat startIndex) as Hlen
    by (rewrite length_take; lia).
  split; [|split; [|split; [|repeat split]]].
  - intros i Hi. rewrite Hl.
    rewrite lookup_app_l by lia. apply lookup_take_lt. lia.
  - intros k Hk. rewrite Hl.
    rewrite lookup_app_r by lia. rewrite Hlen.
    replace (Z.to_nat startIndex + k - Z.to_nat startIndex)%nat with k by lia.
    by rewrite lookup_app_l.
  - intros i Hi. rewrite Hl.
    rewrite lookup_app_r by lia. rewrite Hlen.
    rewrite lookup_app_r by (subst added; lia).
    rewrite lookup_drop. f_equal. subst added. lia.
Qed.

Lemma replaceLines_elsewhere_witness :
  lines
    (replaceLines (U := BasicLatinUpperCase) 2 2 streetText None
       (js "edit-1") 1 officeState) !! 1%nat
  = lines officeState !! 1%nat.
Proof.
  apply (replaceLines_elsewhere (U := BasicLatinUpperCase) officeState 2 2
           streetText None (js "edit-1") 1).
  - vm_compute. repeat split; discriminate.
  - lia.
Defined.

(** X8. Undoing an older edit over a later one.  Let a first edit
    replace a valid range, and a second edit, with another id, replace a
    range that ends before the first one starts, by as many lines as it
    removes.  Then [undoEdit] with the id of the first edit gives the lines
    of the second edit applied alone to the original document. *)
Theorem undo_older_after_later {U : UpperCase} (state : ScriptState)
    (s1 e1 s2 e2 : Z) (text1 text2 : jsstring)
    (prompt1 prompt2 : option jsstring) (id1 id2 : jsstring)
    (now1 now2 : Z) :
  let state1 := replaceLines s1 e1 text1 prompt1 id1 now1 state in
  let state2 := replaceLines s2 e2 text2 prompt2 id2 now2 state1 in
  validRange s1 e1 state ->
  0 <= s2 -> s2 <= e2 -> e2 < s1 ->
  Z.of_nat (length (newLineObjects text2)) = e2 - s2 + 1 ->
  id1 <> id2 ->
  lines (undoEdit id1 state2)
  = lines (replaceLines s2 e2 text2 prompt2 id2 now2 state).
Proof.
  intros state1 state2 (Hs1 & Hse1 & He1) Hs2 Hse2 Habove Hsame Hid.
  set (n1 := newLineObjects text1) in *.
  set (n2 := newLineObjects text2) in *.
  destruct (cut_range (lines state) s1 e1) as (p & o & r & HA & Hp & Ho);
    [lia..|].
  destruct (cut_range p s2 e2) as (p0 & q & m & Hp0 & Hlp0 & Hq); [lia..|].
  assert (Z.of_nat (length p) = s2 + (e2 + 1 - s2) + Z.of_nat (length m))
    as Hlenp by (rewrite Hp0, !length_app; lia).
  assert (lines state1 = p0 ++ q ++ m ++ n1 ++ r) as H1.
  { subst state1. rewrite lines_replaceLines, HA.
    rewrite splice_app by lia. rewrite Hp0. by rewrite <- !app_assoc. }
  assert (lines state2 = p0 ++ n2 ++ m ++ n1 ++ r) as H2.
  { subst state2. rewrite lines_replaceLines, H1.
    apply splice_app; lia. }
  rewrite (undoEdit_second id1 state2
             (editEntry s2 e2 text2 prompt2 id2 now2 state1)
             (editEntry s1 e1 text1 prompt1 id1 now1 state)
             (take 48 (editHistory state))).
  - cbn [startIndex originalLines newLines editEntry]. fold n1.
    rewrite H2.
    rewrite (app_assoc n2 m (n1 ++ r)), (app_assoc p0 (n2 ++ m) (n1 ++ r)).
    rewrite (splice_app (p0 ++ n2 ++ m) n1 r)
      by (rewrite !length_app; lia).
    rewrite HA at 1. rewrite slice_app_middle by lia.
    rewrite lines_replaceLines. fold n2. rewrite HA, Hp0.
    rewrite <- !app_assoc.
    rewrite (splice_app p0 q (m ++ o ++ r)) by lia.
    reflexivity.
  - subst state2 state1. rewrite !history_push.
    cbn [firstn]. by rewrite take_take.
  - simpl. congruence.
  - reflexivity.
Qed.

Lemma undo_older_after_later_witness :
  let state1 :=
    replaceLines (U := BasicLatinUpperCase) 2 3 streetText None
      (js "edit-1") 1 officeState in
  let state2 :=
    replaceLines (U := BasicLatinUpperCase) 1 1 (js "JOHN") None
      (js "edit-2") 2 state1 in
  lines (undoEdit (js "edit-1") state2)
  = lines
      (replaceLines (U := BasicLatinUpperCase) 1 1 (js "JOHN") None
         (js "edit-2") 2 officeState).
Proof.
  intros state1 state2.
  apply (undo_older_after_later (U := BasicLatinUpperCase) officeState
           2 3 1 1 streetText (js "JOHN") None None (js "edit-1")
           (js "edit-2") 1 2).
  - vm_compute. repeat split; discriminate.
  - lia.
  - lia.
  - lia.
  - reflexivity.
  - discriminate.
Defined.

(** ** Further properties of the classifier: its output *)

Module TrimFacts.

Lemma trimStart_head (s : jsstring) (c : N) (rest : jsstring) :
  trimStart s = c :: rest -> isWhiteSpace c = false.
Proof.
  induction s as [|d s IH]; simpl; [discriminate|].
  destruct (isWhiteSpace d) eqn:Hd; [exact IH|].
  intros H. inversion H; subst. exact Hd.
Qed.

Lemma trimStart_snoc (w : jsstring) (c : N) :
  isWhiteSpace c = false -> trimStart (w ++ [c]) = trimStart w ++ [c].
Proof.
  intros Hc. induction w as [|d w IH]; simpl.
  - by rewrite Hc.
  - destruct (isWhiteSpace d); [exact IH | reflexivity].
Qed.

Lemma trimStart_fixed (c : N) (rest : jsstring) :
  isWhiteSpace c = false -> trimStart (c :: rest) = c :: rest.
Proof. intros Hc. simpl. by rewrite Hc. Qed.

(** The shape of a trimmed string: empty, or with a first and a last
    code unit that are not white space. *)
Lemma trim_cases (s : jsstring) :
  trim s = []
  \/ exists c rest,
       trim s = c :: rest /\ isWhiteSpace c = false
       /\ trimStart (rev (trim s)) = rev (trim s).
Proof.
  unfold trim, trimEnd.
  destruct (trimStart s) as [|c t] eqn:Ht; [by left|]. right.
  pose proof (trimStart_head _ _ _ Ht) as Hc.
  simpl rev. rewrite trimStart_snoc by done.
  rewrite rev_app_distr. simpl.
  exists c, (rev (trimStart (rev t))).
  split; [done|]. split; [done|].
  rewrite rev_involutive.
  destruct (trimStart (rev t)) as [|d u] eqn:Hu; simpl.
  - by rewrite Hc.
  - by rewrite (trimStart_head _ _ _ Hu).
Qed.

Lemma trim_idempotent (s : jsstring) : trim (trim s) = trim s.
Proof.
  destruct (trim_cases s) as [H|(c & rest & H & Hc & Hrev)].
  - by rewrite H.
  - unfold trim at 1. unfold trimEnd.
    rewrite H, (trimStart_fixed c rest Hc), <- H, Hrev.
    apply rev_involutive.
Qed.

Lemma trim_head (s : jsstring) (c : N) (rest : jsstring) :
  trim s = c :: rest -> isWhiteSpace c = false.
Proof.
  intros H. destruct (trim_cases s) as [H'|(c' & rest' & H' & Hc & _)];
    congruence.
Qed.

Lemma trim_last (s : jsstring) (front : jsstring) (c : N) :
  trim s = front ++ [c] -> isWhiteSpace c = false.
Proof.
  intros H. destruct (trim_cases s) as [H'|(c' & rest' & _ & _ & Hrev)].
  - rewrite H' in H. by destruct front.
  - rewrite H, rev_app_distr in Hrev. simpl in Hrev.
    destruct (isWhiteSpace c) eqn:Hc; [|done]. exfalso.
    apply (f_equal length) in Hrev.
    assert (forall t, (length (trimStart t) <= length t)%nat) as Hle.
    { intros t. induction t as [|d t IH]; simpl; [lia|].
      destruct (isWhiteSpace d); simpl; lia. }
    specialize (Hle (rev front)). simpl in Hrev. lia.
Qed.

Lemma split_no_sep (sep : N) (s : jsstring) :
  Forall (fun seg => sep ∉ seg) (split sep s).
Proof.
  induction s as [|c s IH]; simpl.
  - repeat constructor. apply not_elem_of_nil.
  - destruct (N.eqb_spec c sep) as [->|Hne].
    + constructor; [apply not_elem_of_nil | exact IH].
    + destruct (split sep s) as [|seg segs].
      * repeat constructor. rewrite list_elem_of_singleton. congruence.
      * inversion IH; subst. constructor; [|done].
        rewrite not_elem_of_cons. split; [congruence | done].
Qed.

Lemma length_split (sep : N) (s : jsstring) :
  length (split sep s)
  = S (length (List.filter (fun c => (c =? sep)%N) s)).
Proof.
  induction s as [|c s IH]; simpl; [done|].
  destruct (c =? sep)%N; simpl; [by rewrite IH|].
  destruct (split sep s) as [|seg segs]; simpl in *; lia.
Qed.

(** [split] undoes [join] on segments that hold no separator. *)
Lemma split_join (sep : N) (segs : list jsstring) :
  segs <> [] ->
  Forall (fun seg => sep ∉ seg) segs ->
  split sep (join [sep] segs) = segs.
Proof.
  intros Hne Hsegs. induction Hsegs as [|seg segs Hseg Hsegs IH]; [done|].
  clear Hne.
  destruct segs as [|seg' segs'].
  - simpl. clear IH Hsegs.
    induction seg as [|c seg IHseg]; simpl; [done|].
    apply not_elem_of_cons in Hseg as [Hc Hseg].
    destruct (N.eqb_spec c sep) as [->|_]; [done|].
    by rewrite IHseg.
  - specialize (IH ltac:(done)).
    change (join [sep] (seg :: seg' :: segs'))
      with (seg ++ [sep] ++ join [sep] (seg' :: segs')).
    set (J := join [sep] (seg' :: segs')) in *.
    induction seg as [|c seg IHseg].
    + simpl. rewrite N.eqb_refl. by rewrite IH.
    + apply not_elem_of_cons in Hseg as [Hc Hseg].
      simpl. destruct (N.eqb_spec c sep) as [->|_]; [done|].
      simpl in IHseg. by rewrite (IHseg Hseg).
Qed.

Lemma elem_of_mapLines {U : UpperCase} (prevType : option LineType)
    (cl : list jsstring) (l : ScriptLine) :
  l ∈ mapLines prevType cl ->
  exists seg p,
    seg ∈ cl
    /\ l = {| type := detectType seg p; content := trim seg;
              original_text := seg |}.
Proof.
  revert prevType. induction cl as [|seg cl IH]; intros prevType; simpl.
  - intros H. by apply elem_of_nil in H.
  - intros [->|H]%elem_of_cons.
    + exists seg, prevType. split; [apply list_elem_of_here | done].
    + destruct (IH _ H) as (seg' & p & Hin & Hl).
      exists seg', p. split; [by apply list_elem_of_further | done].
Qed.

Lemma elem_of_contentLines (newContent seg : jsstring) :
  seg ∈ contentLines newContent ->
  seg ∈ split LF newContent /\ trim seg <> [].
Proof.
  unfold contentLines. intros H%list_elem_of_In%filter_In.
  destruct H as [Hin Htrim]. split; [by apply list_elem_of_In|].
  intros Heq. by rewrite Heq in Htrim.
Qed.

End TrimFacts.

Import TrimFacts.

(** X9. What the classifier hands back.  Every line made by
    [replaceLines] has as [content] the trimmed [original_text]; the
    content is not empty and neither starts nor ends with white space,
    and the original text holds no line feed.  There are at most as many
    lines as the text has line feeds, plus one. *)
Theorem newLineObjects_wellformed {U : UpperCase} (newContent : jsstring) :
  (forall l : ScriptLine,
      l ∈ newLineObjects newContent ->
      content l = trim (original_text l)
      /\ content l <> []
      /\ (LF ∉ original_text l)
      /\ (forall c rest, content l = c :: rest -> isWhiteSpace c = false)
      /\ (forall front c,
            content l = front ++ [c] -> isWhiteSpace c = false))
  /\ (length (newLineObjects newContent)
      <= S (length (List.filter (fun c => (c =? LF)%N) newContent)))%nat.
Proof.
  split.
  - intros l Hl. unfold newLineObjects in Hl.
    apply elem_of_mapLines in Hl as (seg & p & Hseg & ->). simpl.
    apply elem_of_contentLines in Hseg as [Hsplit Htrim].
    split; [done|]. split; [done|]. split.
    + pose proof (split_no_sep LF newContent) as Hno.
      rewrite list.Forall_forall in Hno. by apply Hno.
    + split; [apply trim_head | apply trim_last].
  - unfold newLineObjects, contentLines.
    rewrite length_mapLines, <- length_split.
    apply filter_length_le.
Qed.

Lemma newLineObjects_wellformed_witness :
  let l := {| type := character; content := js "JOHN";
              original_text := js "JOHN" |} in
  l ∈ newLineObjects (U := BasicLatinUpperCase) kitchenText
  /\ content l = trim (original_text l).
Proof.
  intros l.
  assert (l ∈ newLineObjects (U := BasicLatinUpperCase) kitchenText) as Hl
    by (vm_compute; apply list_elem_of_further, list_elem_of_here).
  split; [exact Hl|].
  apply (proj1 (newLineObjects_wellformed (U := BasicLatinUpperCase)
                  kitchenText) l Hl).
Defined.

(** ** Further properties of the classifier: how types follow each other *)

Module RuleFacts.



(** [detectType] looks at the trimmed text only. *)
Lemma detectType_trim {U : UpperCase} (content : jsstring)
    (prevType : option LineType) :
  detectType (trim content) prevType = detectType content prevType.
Proof. unfold detectType. by rewrite trim_idempotent. Qed.

Lemma mapLines_trim {U : UpperCase} (prevType : option LineType)
    (cl : list jsstring) :
  type <$> mapLines prevType (trim <$> cl) = type <$> mapLines prevType cl
  /\ content <$> mapLines prevType (trim <$> cl)
     = content <$> mapLines prevType cl.
Proof.
  revert prevType. induction cl as [|seg cl IH]; intros prevType; [done|].
  rewrite fmap_cons. cbn [mapLines]. rewrite !fmap_cons.
  cbn [type content]. rewrite detectType_trim, trim_idempotent.
  destruct (IH (Some (detectType seg prevType))) as [-> ->]. done.
Qed.

Lemma content_mapLines {U : UpperCase} (prevType : option LineType)
    (cl : list jsstring) :
  content <$> mapLines prevType cl = trim <$> cl.
Proof.
  revert prevType. induction cl as [|seg cl IH]; intros prevType; [done|].
  cbn [mapLines]. rewrite !fmap_cons. cbn [content]. by rewrite IH.
Qed.

Lemma not_elem_of_trim (c : N) (s : jsstring) : c ∉ s -> c ∉ trim s.
Proof.
  intros Hc Hin.
  pose proof (Forall_trim (fun d => d <> c) s) as Hsub.
  rewrite !list.Forall_forall in Hsub.
  eapply Hsub; [|exact Hin|reflexivity].
  intros d Hd ->. done.
Qed.

(** Trimmed segments joined by line feeds split back into themselves. *)
Lemma contentLines_join_trim (segs : list jsstring) :
  Forall (fun seg => (LF ∉ seg) /\ trim seg <> []) segs ->
  contentLines (join [LF] (trim <$> segs)) = trim <$> segs.
Proof.
  intros Hsegs. destruct segs as [|seg0 segs0]; [reflexivity|].
  unfold contentLines. rewrite split_join.
  - induction Hsegs as [|seg segs [_ Hseg] _ IH]; [done|].
    rewrite fmap_cons. cbn [List.filter]. rewrite trim_idempotent.
    destruct (trim seg); [done|]. simpl. by rewrite IH.
  - done.
  - apply list.Forall_forall. intros t Ht.
    apply list_elem_of_fmap in Ht as (seg & -> & Hseg).
    rewrite list.Forall_forall in Hsegs.
    apply not_elem_of_trim. by apply Hsegs.
Qed.

End RuleFacts.

Import RuleFacts.



(** X11. Classifying twice gives the same lines.  Joining the [content]
    of the lines a text was classified into with line feeds, and
    classifying that text again, gives lines of the same types and the same
    contents. *)
Theorem newLineObjects_stable {U : UpperCase} (newContent : jsstring) :
  let shown := join [LF] (content <$> newLineObjects newContent) in
  type <$> newLineObjects shown = type <$> newLineObjects newContent
  /\ content <$> newLineObjects shown
     = content <$> newLineObjects newContent.
Proof.
  intros shown.
  assert (contentLines shown = trim <$> contentLines newContent) as Hsegs.
  { subst shown. unfold newLineObjects. rewrite content_mapLines.
    apply contentLines_join_trim.
    apply list.Forall_forall. intros seg Hseg.
    apply elem_of_contentLines in Hseg as [Hsplit Htrim].
    split; [|done].
    pose proof (split_no_sep LF newContent) as Hno.
    rewrite list.Forall_forall in Hno. by apply Hno. }
  unfold newLineObjects at 1 3. rewrite Hsegs. apply mapLines_trim.
Qed.

(** ** Further properties of the classifier: what the expressions accept *)

Module PatternFacts.

Import RegexFacts.

Lemma matches_lit (cs p : jsstring) :
  matches (lit cs) p <-> asciiUpper <$> cs = asciiUpper <$> p.
Proof.
  revert p. induction cs as [|c cs IH]; intros p; cbn [lit fold_right].
  - split.
    + intros H. by inversion H.
    + intros H. symmetry in H. apply fmap_nil_inv in H as ->. constructor.
  - split.
    + intros (u & t & -> & Hu & Ht)%matches_cat_inv.
      inversion Hu as [|q x Hx| | | | |]; subst.
      apply N.eqb_eq in Hx. apply IH in Ht.
      cbn [app]. rewrite !fmap_cons. by rewrite Hx, Ht.
    + intros H. destruct p as [|x p]; [discriminate|].
      rewrite !fmap_cons in H. injection H as Hx Hp.
      apply (matches_cat (chr_i c) (lit cs) [x] p).
      * constructor. apply N.eqb_eq. done.
      * by apply IH.
Qed.

Lemma matches_alts (rs : list re) (p : jsstring) :
  matches (alts rs) p <-> exists r, r ∈ rs /\ matches r p.
Proof.
  induction rs as [|r rs IH]; simpl.
  - split; [intros H; inversion H|].
    intros (r & Hr & _). by apply elem_of_nil in Hr.
  - split.
    + intros [H|H]%matches_alt_inv.
      * exists r. split; [apply list_elem_of_here | done].
      * apply IH in H as (r' & Hr' & H).
        exists r'. split; [by apply list_elem_of_further | done].
    + intros (r' & [->|Hr']%elem_of_cons & H).
      * by apply matches_alt_l.
      * apply matches_alt_r, IH. eauto.
Qed.

Lemma matches_lits (pats : list jsstring) (p : jsstring) :
  matches (alts (lit <$> pats)) p
  <-> exists pat, pat ∈ pats /\ ciEqual pat p = true.
Proof.
  rewrite matches_alts. unfold ciEqual. split.
  - intros (r & (pat & -> & Hpat)%list_elem_of_fmap & H).
    exists pat. split; [done|].
    apply bool_decide_eq_true. by apply matches_lit.
  - intros (pat & Hpat & H). exists (lit pat). split.
    + apply list_elem_of_fmap. eauto.
    + apply matches_lit. by apply bool_decide_eq_true in H.
Qed.

Lemma ciPrefix_split (pat s : jsstring) :
  ciPrefix pat s = true
  <-> exists p q, s = p ++ q /\ ciEqual pat p = true.
Proof.
  unfold ciPrefix. split.
  - intros H. exists (take (length pat) s), (drop (length pat) s).
    by rewrite take_drop.
  - intros (p & q & -> & H).
    assert (length pat = length p) as ->.
    { unfold ciEqual in H. apply bool_decide_eq_true in H.
      apply (f_equal length) in H. by rewrite !length_fmap in H. }
    by rewrite take_app_length.
Qed.

Lemma test_lits (pats : list jsstring) (s : jsstring) :
  test (alts (lit <$> pats)) s = true
  <-> exists pat, pat ∈ pats /\ ciPrefix pat s = true.
Proof.
  rewrite test_matches_prefix. split.
  - intros (p & q & -> & (pat & Hpat & H)%matches_lits).
    exists pat. split; [done|]. apply ciPrefix_split. eauto.
  - intros (pat & Hpat & (p & q & -> & H)%ciPrefix_split).
    exists p, q. split; [done|]. apply matches_lits. eauto.
Qed.

Lemma matches_star_cls (f : N -> bool) (p : jsstring) :
  matches (Star (Cls f)) p <-> Forall (fun c => f c = true) p.
Proof.
  split.
  - intros H. remember (Star (Cls f)) as r eqn:Hr.
    induction H as [| | | | | |a u t Hu _ Ht IHt]; try discriminate.
    + constructor.
    + injection Hr as ->. inversion Hu; subst.
      constructor; [done | by apply IHt].
  - induction 1 as [|c p Hc Hp IH]; [constructor|].
    apply (matches_star_app (Cls f) [c] p); [by constructor | done].
Qed.

Lemma matches_plus_cls (f : N -> bool) (p : jsstring) :
  matches (Plus (Cls f)) p
  <-> p <> [] /\ Forall (fun c => f c = true) p.
Proof.
  unfold Plus. split.
  - intros (u & t & -> & Hu & Ht)%matches_cat_inv.
    inversion Hu; subst. apply matches_star_cls in Ht.
    split; [done | by constructor].
  - intros [Hne H]. destruct H as [|c p Hc Hp]; [done|].
    apply (matches_cat (Cls f) (Star (Cls f)) [c] p);
      [by constructor | by apply matches_star_cls].
Qed.

Lemma asciiUpper_inv (x c : N) :
  (c < 65 \/ 90 < c)%N -> asciiUpper x = c -> x = c.
Proof.
  unfold asciiUpper. intros Hc.
  destruct ((97 <=? x) && (x <=? 122))%N eqn:Hx; [|done].
  apply andb_true_iff in Hx as [H1%N.leb_le H2%N.leb_le]. lia.
Qed.

(** A text that matches a literal up to case holds every code unit of the
    literal that is not a letter. *)
Lemma ciEqual_elem_of (pat p : jsstring) (c : N) :
  (c < 65 \/ 90 < c)%N -> (c < 97 \/ 122 < c)%N ->
  ciEqual pat p = true -> c ∈ pat -> c ∈ p.
Proof.
  intros Hc Hc' H Hin. unfold ciEqual in H.
  apply bool_decide_eq_true in H.
  assert (asciiUpper c ∈ asciiUpper <$> p) as Hup.
  { rewrite <- H. apply list_elem_of_fmap. eauto. }
  apply list_elem_of_fmap in Hup as (x & Hx & Hxp).
  assert (asciiUpper c = c) as Hcc.
  { unfold asciiUpper.
    destruct ((97 <=? c) && (c <=? 122))%N eqn:E; [|done].
    apply andb_true_iff in E as [H1%N.leb_le H2%N.leb_le]. lia. }
  rewrite Hcc in Hx. symmetry in Hx.
  by rewrite <- (asciiUpper_inv x c Hc Hx).
Qed.

End PatternFacts.

Import RegexFacts PatternFacts.

(** X12. What [sceneHeadingRe] accepts: the texts that begin, in any
    letter case, with [INT.], [EXT.], [INT/EXT.], [I/E.], [INT./EXT.] or
    [EXT./INT.]; what follows the prefix is free. *)
Theorem sceneHeadingRe_accepts (s : jsstring) :
  test sceneHeadingRe s
  = existsb (fun pat => ciPrefix pat s) sceneHeadingPrefixes.
Proof.
  apply eq_true_iff_eq.
  change sceneHeadingRe with (alts (lit <$> sceneHeadingPrefixes)).
  rewrite test_lits, existsb_exists. split.
  - intros (pat & Hpat & H). exists pat.
    split; [by apply list_elem_of_In | done].
  - intros (pat & Hpat & H). exists pat.
    split; [by apply list_elem_of_In | done].
Qed.

(** X13. What [actionIndicatorRe] accepts: the texts that begin, in any
    letter case, with one of the six transition keywords, and the texts
    that begin with a run of word characters and white space, then white
    space, then one of the eight verbs in any letter case, then one white
    space. *)
Theorem actionIndicatorRe_accepts (s : jsstring) :
  test actionIndicatorRe s = true
  <-> (exists kw, kw ∈ transitionKeywords /\ ciPrefix kw s = true)
      \/ (exists p q, s = p ++ q /\ subjectVerb p).
Proof.
  set (sv := Cat (Plus (Cls (fun c => isWordChar c || isWhiteSpace c)))
               (Cat (Plus (Cls isWhiteSpace))
                  (Cat (alts (lit <$> actionVerbs)) (Cls isWhiteSpace)))).
  assert (forall p, matches sv p <-> subjectVerb p) as Hsv.
  { intros p. subst sv. unfold subjectVerb. split.
    - intros (a & t1 & -> & Ha & H1)%matches_cat_inv.
      apply matches_cat_inv in H1 as (b & t2 & -> & Hb & H2).
      apply matches_cat_inv in H2 as (v & t3 & -> & Hv & Hw).
      inversion Hw as [|f w Hfw| | | | |]; subst.
      apply matches_plus_cls in Ha as [Ha1 Ha2].
      apply matches_plus_cls in Hb as [Hb1 Hb2].
      apply matches_lits in Hv.
      exists a, b, v, w. repeat split; done.
    - intros (a & b & v & w & -> & Ha1 & Ha2 & Hb1 & Hb2 & Hv & Hw).
      apply matches_cat; [by apply matches_plus_cls|].
      apply matches_cat; [by apply matches_plus_cls|].
      apply matches_cat; [by apply matches_lits | by constructor]. }
  assert (forall p,
             matches actionIndicatorRe p
             <-> matches (alts (lit <$> transitionKeywords)) p
                 \/ matches sv p) as Halt.
  { intros p.
    change actionIndicatorRe
      with (alts ((lit <$> transitionKeywords) ++ [sv])).
    rewrite !matches_alts. split.
    - intros (r & [Hr|Hr]%elem_of_app & H); [left; eauto|].
      apply list_elem_of_singleton in Hr as ->. by right.
    - intros [(r & Hr & H)|H].
      + exists r. split; [apply elem_of_app; by left | done].
      + exists sv. split; [|done].
        apply elem_of_app. right. apply list_elem_of_here. }
  rewrite test_matches_prefix. split.
  - intros (p & q & -> & [H|H]%Halt).
    + left. apply matches_lits in H as (kw & Hkw & H).
      exists kw. split; [done|]. apply ciPrefix_split. eauto.
    + right. exists p, q. split; [done|]. by apply Hsv.
  - intros [(kw & Hkw & (p & q & -> & H)%ciPrefix_split)
           |(p & q & -> & H)].
    + exists p, q. split; [done|]. apply Halt. left.
      apply matches_lits. eauto.
    + exists p, q. split; [done|]. apply Halt. right. by apply Hsv.
Qed.

(** ** Further properties of the classifier: the first three rules *)

Module HeadingFacts.

Lemma heading_prefix (s : jsstring) :
  test sceneHeadingRe s = true ->
  exists pat, pat ∈ sceneHeadingPrefixes /\ ciPrefix pat s = true.
Proof.
  change sceneHeadingRe with (alts (lit <$> sceneHeadingPrefixes)).
  apply test_lits.
Qed.

(** Every scene prefix holds a full stop, so an accepted text does. *)
Lemma heading_has_stop (s : jsstring) :
  test sceneHeadingRe s = true -> includes s 46%N = true.
Proof.
  intros (pat & Hpat & (p & q & -> & H)%ciPrefix_split)%heading_prefix.
  assert (46%N ∈ pat) as Hstop.
  { unfold sceneHeadingPrefixes in Hpat.
    repeat (apply elem_of_cons in Hpat as [->|Hpat];
            [vm_compute; repeat first [apply list_elem_of_here
                                      | apply list_elem_of_further]|]).
    by apply elem_of_nil in Hpat. }
  assert (46%N ∈ p) as Hp
    by (apply (ciEqual_elem_of pat); [lia | lia | done | done]).
  unfold includes. apply existsb_exists. exists 46%N.
  split; [|reflexivity].
  apply list_elem_of_In, elem_of_app. by left.
Qed.

(** No scene prefix starts with a bracket. *)
Lemma heading_not_bracket (s : jsstring) :
  test sceneHeadingRe s = true -> startsWith s 40%N = false.
Proof.
  intros (pat & Hpat & H)%heading_prefix.
  destruct s as [|x s]; [reflexivity|]. simpl.
  destruct (N.eqb_spec x 40) as [->|]; [|reflexivity]. exfalso.
  unfold ciPrefix, ciEqual in H. apply bool_decide_eq_true in H.
  unfold sceneHeadingPrefixes in Hpat.
  repeat (apply elem_of_cons in Hpat as [->|Hpat];
          [vm_compute in H; discriminate H|]).
  by apply elem_of_nil in Hpat.
Qed.

(** The first three rules, read on the trimmed text. *)
Lemma detectType_by_text {U : UpperCase} (content : jsstring)
    (prevType : option LineType) :
  let trimmed := trim content in
  (detectType content prevType = heading
   <-> (exists pat, pat ∈ sceneHeadingPrefixes /\ ciPrefix pat trimmed = true)
       /\ trimmed = toUpperCase trimmed)
  /\ (detectType content prevType = parenthetical
      <-> startsWith trimmed 40%N = true /\ endsWith trimmed 41%N = true)
  /\ (detectType content prevType = character
      <-> ~ (startsWith trimmed 40%N = true /\ endsWith trimmed 41%N = true)
          /\ trimmed = toUpperCase trimmed
          /\ (length trimmed <= 45)%nat
          /\ includes trimmed 46%N = false).
Proof.
  intros trimmed.
  assert (test sceneHeadingRe trimmed = true
          <-> exists pat, pat ∈ sceneHeadingPrefixes
                          /\ ciPrefix pat trimmed = true) as Hre.
  { change sceneHeadingRe with (alts (lit <$> sceneHeadingPrefixes)).
    apply test_lits. }
  pose proof (heading_has_stop trimmed) as Hstop.
  pose proof (heading_not_bracket trimmed) as Hbracket.
  rewrite <- Hre. unfold detectType. fold trimmed.
  destruct (test sceneHeadingRe trimmed) eqn:Hh;
    destruct (bool_decide (trimmed = toUpperCase trimmed)) eqn:Hu;
    destruct (startsWith trimmed 40%N) eqn:Hs;
    destruct (endsWith trimmed 41%N) eqn:He;
    destruct (length trimmed <=? 45)%nat eqn:Hl;
    destruct (includes trimmed 46%N) eqn:Hi;
    try (specialize (Hstop eq_refl)); try (specialize (Hbracket eq_refl));
    try discriminate;
    try apply bool_decide_eq_true in Hu;
    try apply bool_decide_eq_false in Hu;
    try apply Nat.leb_le in Hl; try apply Nat.leb_gt in Hl;
    cbn [andb orb negb];
    repeat match goal with
           | |- context [if ?b then _ else _] => destruct b
           end;
    (split; [|split]); split; intros; try discriminate; try done;
    try (repeat split; done); try lia; try tauto.
  all: try (intuition (try discriminate; try lia; try done)).
Qed.

End HeadingFacts.

Import HeadingFacts.

(** X14. The first three rules decide on the text alone.  Whatever the
    previous type, a segment is a heading exactly when its trimmed text
    begins with a scene prefix in any letter case and equals its own
    upper-casing; a parenthetical exactly when the trimmed text starts
    with an opening and ends with a closing bracket; a character cue
    exactly when it is not so bracketed, equals its own upper-casing, is
    at most 45 code units long and holds no full stop. *)
Theorem detectType_rules {U : UpperCase} (content : jsstring)
    (prevType : option LineType) :
  let trimmed := trim content in
  (detectType content prevType = heading
   <-> (exists pat, pat ∈ sceneHeadingPrefixes /\ ciPrefix pat trimmed = true)
       /\ trimmed = toUpperCase trimmed)
  /\ (detectType content prevType = parenthetical
      <-> startsWith trimmed 40%N = true /\ endsWith trimmed 41%N = true)
  /\ (detectType content prevType = character
      <-> ~ (startsWith trimmed 40%N = true /\ endsWith trimmed 41%N = true)
          /\ trimmed = toUpperCase trimmed
          /\ (length trimmed <= 45)%nat
          /\ includes trimmed 46%N = false).
Proof. apply detectType_by_text. Qed.

(** X15. Lower-case letters rule out headings and cues.  A segment whose
    trimmed text is Basic Latin and holds a letter from [a] to [z] is
    never typed heading or character: it is a parenthetical, a dialogue
    line or an action line. *)
Theorem detectType_lowercase {U : UpperCase} (content : jsstring)
    (prevType : option LineType) (x : N) :
  Forall isAscii (trim content) ->
  x ∈ trim content ->
  (97 <= x)%N -> (x <= 122)%N ->
  detectType content prevType = parenthetical
  \/ detectType content prevType = dialogue
  \/ detectType content prevType = action.
Proof.
  intros Hascii Hx Hlo Hhi.
  assert (trim content <> toUpperCase (trim content)) as Hne.
  { rewrite toUpperCase_ascii by done. intros Heq.
    assert (forall s : jsstring, x ∈ s -> s <> List.map asciiUpper s) as Hall.
    { intros s. induction s as [|c s IH]; [by intros ?%elem_of_nil|].
      intros [Heq'|Hin]%elem_of_cons; simpl; intros H; injection H as Hc Hs.
      - subst c. unfold asciiUpper in Hc.
        destruct ((97 <=? x) && (x <=? 122))%N eqn:E; [lia|].
        apply andb_false_iff in E as [E%N.leb_gt|E%N.leb_gt]; lia.
      - by apply IH. }
    by apply (Hall (trim content)). }
  unfold detectType.
  rewrite (bool_decide_eq_false_2 _ Hne). rewrite andb_false_r. simpl.
  repeat match goal with
         | |- context [if ?b then _ else _] => destruct b
         end; auto.
Qed.

Lemma detectType_lowercase_witness :
  detectType (U := BasicLatinUpperCase) (js "Int. Kitchen") None
  = parenthetical
  \/ detectType (U := BasicLatinUpperCase) (js "Int. Kitchen") None
     = dialogue
  \/ detectType (U := BasicLatinUpperCase) (js "Int. Kitchen") None = action.
Proof.
  apply (detectType_lowercase (U := BasicLatinUpperCase) (js "Int. Kitchen")
           None 110%N).
  - vm_compute. repeat constructor.
  - vm_compute. apply list_elem_of_further, list_elem_of_here.
  - lia.
  - lia.
Defined.

(** X16. The types fit the contents.  In the lines made by one call, a
    heading has upper-case content that begins with a scene prefix, a
    parenthetical has content in brackets, a character cue has upper-case
    content of at most 45 code units without a full stop, and a dialogue
    or action line has content that is neither in brackets nor fit for a
    cue. *)
Theorem newLineObjects_types {U : UpperCase} (newContent : jsstring)
    (l : ScriptLine) :
  l ∈ newLineObjects newContent ->
  let fitForCue :=
    content l = toUpperCase (content l)
    /\ (length (content l) <= 45)%nat
    /\ includes (content l) 46%N = false in
  let bracketed :=
    startsWith (content l) 40%N = true /\ endsWith (content l) 41%N = true in
  (type l = heading ->
   content l = toUpperCase (content l)
   /\ exists pat, pat ∈ sceneHeadingPrefixes
                  /\ ciPrefix pat (content l) = true)
  /\ (type l = parenthetical -> bracketed)
  /\ (type l = character -> fitForCue /\ ~ bracketed)
  /\ (type l = dialogue \/ type l = action -> ~ fitForCue /\ ~ bracketed).
Proof.
  intros Hl fitForCue bracketed. subst fitForCue bracketed.
  unfold newLineObjects in Hl.
  apply elem_of_mapLines in Hl as (seg & p & _ & ->). cbn [type content].
  destruct (detectType_by_text seg p) as (Hh & Hp & Hc).
  split; [|split; [|split]].
  - intros H. apply Hh in H as [H1 H2]. done.
  - intros H. by apply Hp in H.
  - intros H. apply Hc in H. tauto.
  - intros H. split.
    + intros Hfit. destruct (decide (detectType seg p = parenthetical))
        as [Hpar|Hnpar].
      * rewrite Hpar in H. destruct H; discriminate.
      * assert (detectType seg p = character) as Hchar.
        { apply Hc. split; [|tauto]. intros Hb. apply Hnpar. by apply Hp. }
        rewrite Hchar in H. destruct H; discriminate.
    + intros Hb. apply Hp in Hb. rewrite Hb in H. destruct H; discriminate.
Qed.

Lemma newLineObjects_types_witness :
  let l := {| type := character; content := js "JOHN";
              original_text := js "JOHN" |} in
  l ∈ newLineObjects (U := BasicLatinUpperCase) kitchenText
  /\ (length (content l) <= 45)%nat.
Proof.
  intros l.
  assert (l ∈ newLineObjects (U := BasicLatinUpperCase) kitchenText) as Hl
    by (vm_compute; apply list_elem_of_further, list_elem_of_here).
  split; [exact Hl|].
  destruct (newLineObjects_types (U := BasicLatinUpperCase) kitchenText l Hl)
    as (_ & _ & Hcue & _).
  destruct (Hcue eq_refl) as [(_ & Hlen & _) _]. exact Hlen.
Defined.

(** ** The rewrite panel *)

Module PanelFacts.

Lemma take_plus {A : Type} (n m : nat) (l : list A) :
  take (n + m) l = take n l ++ take m (drop n l).
Proof.
  revert l. induction n as [|n IH]; intros l; [done|].
  destruct l as [|x l]; simpl; [by rewrite take_nil|].
  by rewrite IH.
Qed.

(** Two adjoining slices make one. *)
Lemma slice_split {A : Type} (a : list A) (i j k : Z) :
  0 <= i -> i <= j -> j <= k -> k <= Z.of_nat (length a) ->
  slice a i k = slice a i j ++ slice a j k.
Proof.
  intros Hi Hij Hjk Hk. rewrite !slice_nonneg by lia.
  replace (Z.to_nat k - Z.to_nat i)%nat
    with ((Z.to_nat j - Z.to_nat i) + (Z.to_nat k - Z.to_nat j))%nat by lia.
  rewrite take_plus, drop_drop.
  do 3 f_equal. lia.
Qed.

Lemma length_slice {A : Type} (a : list A) (i j : Z) :
  0 <= i -> i <= j -> j <= Z.of_nat (length a) ->
  Z.of_nat (length (slice a i j)) = j - i.
Proof.
  intros Hi Hij Hj. rewrite slice_nonneg by lia.
  rewrite length_take, length_drop. lia.
Qed.


End PanelFacts.

Import PanelFacts.

(** X17. The context sent with a rewrite.  For a selection inside the
    document, the lines handed over as context are the selected lines with
    the lines before them, five or as many as there are, and the lines
    after them, five or as many as there are; so the selection is always
    part of the context, which holds at most ten lines more. *)
Theorem contextWindow_around_selection (sel : Selection)
    (lines : list ScriptLine) :
  let s := sel_startIndex sel in
  let e := sel_endIndex sel in
  let len := Z.of_nat (length lines) in
  0 <= s -> s <= e -> e < len ->
  RightPanel.contextWindow sel lines
  = slice lines (Z.max 0 (s - 5)) s
      ++ slice lines s (e + 1)
      ++ slice lines (e + 1) (Z.min len (e + 6))
  /\ Z.of_nat (length (slice lines (Z.max 0 (s - 5)) s)) = Z.min s 5
  /\ Z.of_nat (length (slice lines s (e + 1))) = e - s + 1
  /\ Z.of_nat (length (slice lines (e + 1) (Z.min len (e + 6))))
     = Z.min (len - 1 - e) 5
  /\ Z.of_nat (length (RightPanel.contextWindow sel lines)) <= e - s + 11.
Proof.
  intros s e len Hs Hse He.
  assert (RightPanel.contextWindow sel lines
          = slice lines (Z.max 0 (s - 5)) s
              ++ slice lines s (e + 1)
              ++ slice lines (e + 1) (Z.min len (e + 6))) as Hw.
  { unfold RightPanel.contextWindow. fold s e len.
    replace (Z.min (len - 1) (e + 5) + 1) with (Z.min len (e + 6)) by lia.
    rewrite (slice_split lines (Z.max 0 (s - 5)) s) by (subst len; lia).
    f_equal. apply slice_split; subst len; lia. }
  assert (Z.of_nat (length (slice lines (Z.max 0 (s - 5)) s)) = Z.min s 5)
    as H1 by (rewrite length_slice; subst len; lia).
  assert (Z.of_nat (length (slice lines s (e + 1))) = e - s + 1)
    as H2 by (rewrite length_slice; subst len; lia).
  assert (Z.of_nat (length (slice lines (e + 1) (Z.min len (e + 6))))
          = Z.min (len - 1 - e) 5)
    as H3 by (rewrite length_slice; subst len; lia).
  repeat split; try done.
  rewrite Hw, !length_app. lia.
Qed.

Lemma contextWindow_around_selection_witness :
  let sel := {| text := js "MARY"; sel_startIndex := 1;
                sel_endIndex := 1 |} in
  Z.of_nat (length (RightPanel.contextWindow sel officeScene)) <= 1 - 1 + 11.
Proof.
  intros sel.
  apply (contextWindow_around_selection sel officeScene); simpl; lia.
Defined.



(** X19. A failed request always leaves a message.  For every failure of
    the rewrite or the upload request the message put in the error state
    is a non-empty string, so the error box is shown; a non-empty string
    [detail] sent by the server is the message itself, and without one an
    unreachable server gets the text about the connection. *)
Theorem error_message_shown (f : Failure) :
  RightPanel.rewriteErrorMessage f <> []
  /\ Upload.uploadErrorMessage f <> []
  /\ (forall (s : jsstring) (code : option jsstring),
        s <> [] ->
        RightPanel.rewriteErrorMessage (AxiosError (DetailString s) code) = s
        /\ Upload.uploadErrorMessage (AxiosError (DetailString s) code) = s)
  /\ (forall code : option jsstring,
        code = Some (js "ECONNREFUSED") \/ code = Some (js "ERR_NETWORK") ->
        RightPanel.rewriteErrorMessage (AxiosError DetailFalsy code)
        = js "Cannot connect to server. Please check if the backend is running."
        /\ Upload.uploadErrorMessage (AxiosError DetailFalsy code)
           = js "Cannot connect to server. Please check if the backend is running.").
Proof.
  split; [|split; [|split]].
  - destruct f as [[s| |] code|]; simpl; try discriminate;
      destruct (unreachable code); try discriminate;
      destruct s; discriminate.
  - destruct f as [[s| |] code|]; simpl; try discriminate;
      destruct (unreachable code); try discriminate;
      destruct s; discriminate.
  - intros s code Hs. simpl. by destruct s.
  - intros code [-> | ->]; split; reflexivity.
Qed.

Lemma error_message_shown_witness :
  RightPanel.rewriteErrorMessage
    (AxiosError (DetailString (js "Rate limit exceeded")) None)
  = js "Rate limit exceeded".
Proof.
  apply (error_message_shown OtherError). discriminate.
Defined.

(** X20. When a rewrite is requested.  [handleRewrite] posts a request
    exactly when there is a selection and the prompt in use, the preset
    when one is given and else the typed prompt, holds a code unit that is
    not white space; otherwise the panel stays as it is.  The request
    carries the selected text, that prompt, the context around the
    selection and the file format.  When it settles, processing is over
    and the typed prompt is kept; a rewritten text becomes the preview and
    no error is left, a failure leaves the preview alone and sets its
    message. *)
Theorem handleRewrite_effect (customPrompt : option jsstring)
    (outcome : RightPanel.RewriteOutcome) (panel : RightPanel.Panel)
    (store : ScriptState) :
  let used := RightPanel.promptToUse customPrompt panel in
  let after := RightPanel.handleRewrite customPrompt outcome panel store in
  (RightPanel.rewriteRequest customPrompt panel store = None
   <-> selection store = None
       \/ Forall (fun c => isWhiteSpace c = true) used)
  /\ (RightPanel.rewriteRequest customPrompt panel store = None ->
      after = panel)
  /\ (forall preset : jsstring,
        preset <> [] ->
        RightPanel.promptToUse (Some preset) panel = preset)
  /\ (forall req : RightPanel.RewriteRequest,
        RightPanel.rewriteRequest customPrompt panel store = Some req ->
        (exists sel,
            selection store = Some sel
            /\ RightPanel.req_selection req = text sel
            /\ RightPanel.req_context req
               = join [LF]
                   (content <$> RightPanel.contextWindow sel (lines store)))
        /\ RightPanel.req_prompt req = used
        /\ RightPanel.req_fileFormat req = fileFormat store
        /\ RightPanel.isProcessing after = false
        /\ RightPanel.prompt after = RightPanel.prompt panel
        /\ match outcome with
           | RightPanel.Rewritten t =>
               RightPanel.preview after = Some t
               /\ RightPanel.error after = None
           | RightPanel.RewriteFailed f =>
               RightPanel.preview after = RightPanel.preview panel
               /\ RightPanel.error after
                  = Some (RightPanel.rewriteErrorMessage f)
           end).
Proof.
  intros used after.
  assert (truthy (trim used) = false
          <-> Forall (fun c => isWhiteSpace c = true) used) as Hblank.
  { rewrite <- trim_blank. by destruct (trim used). }
  split; [|split; [|split]].
  - unfold RightPanel.rewriteRequest. fold used.
    destruct (selection store) as [sel|]; [|by split; [left|]].
    destruct (truthy (trim used)) eqn:Ht.
    + split; [discriminate|].
      intros [H|H]; [discriminate|]. apply Hblank in H. discriminate H.
    + split; [|done]. intros _. right. by apply Hblank.
  - intros Hnone. subst after. unfold RightPanel.handleRewrite.
    by rewrite Hnone.
  - intros preset Hne. simpl. unfold RightPanel.orElse. by destruct preset.
  - intros req Hreq. subst after. unfold RightPanel.handleRewrite.
    rewrite Hreq. unfold RightPanel.rewriteRequest in Hreq. fold used in Hreq.
    destruct (selection store) as [sel|]; [|discriminate].
    destruct (truthy (trim used)); [|discriminate].
    injection Hreq as <-. simpl.
    split; [by exists sel|].
    repeat split; by destruct outcome.
Qed.

Lemma handleRewrite_effect_witness :
  let panel :=
    {| RightPanel.prompt := js "typed"; RightPanel.isProcessing := false;
       RightPanel.preview := None; RightPanel.error := Some (js "old") |} in
  RightPanel.handleRewrite (Some [32; 9]%N) (RightPanel.Rewritten (js "x"))
    {| RightPanel.prompt := []; RightPanel.isProcessing := false;
       RightPanel.preview := None; RightPanel.error := Some (js "old") |}
    officeSelected
  = {| RightPanel.prompt := []; RightPanel.isProcessing := false;
       RightPanel.preview := None; RightPanel.error := Some (js "old") |}
  /\ RightPanel.promptToUse (Some (js "Noir")) panel = js "Noir".
Proof.
  intros panel. split.
  - apply (handleRewrite_effect (Some [32; 9]%N)
             (RightPanel.Rewritten (js "x"))
             {| RightPanel.prompt := []; RightPanel.isProcessing := false;
                RightPanel.preview := None;
                RightPanel.error := Some (js "old") |} officeSelected).
    reflexivity.
  - apply (handleRewrite_effect None (RightPanel.Rewritten (js "x")) panel
             officeSelected).
    discriminate.
Defined.

(** ** Taking a selection, applying a rewrite, undoing it *)

(** X21. A selection is stored in order.  From the line indices at the
    two ends of the browser selection, in either order, the keyboard
    shortcut and the menu store the same selection, from the smaller
    index to the larger one; when both indices are lines of the document
    it is a valid range for [replaceLines].  Neither handler touches the
    lines or the history.  The menu ignores a selection whose text is
    blank or one of whose ends is on no line, and then keeps the range it
    had. *)
Theorem selection_in_order {Pos : Type} (state : ScriptState)
    (text : jsstring) (a b : Z) (at_ : Pos)
    (menu : SelectionMenu.Menu (Pos := Pos)) :
  let byKey :=
    ScriptViewer.handleKeyDown true false (js "l")
      (SelectionMenu.Selected text (Some a) (Some b)) state in
  let byKeyReversed :=
    ScriptViewer.handleKeyDown false true (js "l")
      (SelectionMenu.Selected text (Some b) (Some a)) state in
  let shown :=
    SelectionMenu.handleMouseUp
      (SelectionMenu.Selected text (Some a) (Some b)) at_ menu in
  let byMenu := (SelectionMenu.handleAddToChat shown state).2 in
  selection byKey
  = Some {| text := text; sel_startIndex := Z.min a b;
            sel_endIndex := Z.max a b |}
  /\ byKeyReversed = byKey
  /\ (trim text <> [] -> byMenu = byKey)
  /\ lines byKey = lines state /\ editHistory byKey = editHistory state
  /\ (0 <= a -> a < Z.of_nat (length (lines state)) ->
      0 <= b -> b < Z.of_nat (length (lines state)) ->
      validRange (Z.min a b) (Z.max a b) byKey)
  /\ (trim text = [] ->
      SelectionMenu.selectedRange shown = SelectionMenu.selectedRange menu
      /\ SelectionMenu.position shown = None)
  /\ (forall endEl : option Z,
        SelectionMenu.handleMouseUp
          (SelectionMenu.Selected text None endEl) at_ menu
        = SelectionMenu.hide menu
        /\ SelectionMenu.handleMouseUp
             (SelectionMenu.Selected text endEl None) at_ menu
           = SelectionMenu.hide menu).
Proof.
  intros byKey byKeyReversed shown byMenu.
  split; [reflexivity|].
  split.
  { subst byKey byKeyReversed. unfold ScriptViewer.handleKeyDown.
    rewrite (Z.min_comm b a), (Z.max_comm b a). reflexivity. }
  split.
  { intros Htrim. subst byMenu shown byKey.
    unfold SelectionMenu.handleMouseUp, SelectionMenu.handleAddToChat.
    destruct (trim text) as [|c t] eqn:Ht; [done|]. simpl.
    destruct text as [|x text]; [discriminate Ht|]. reflexivity. }
  split; [reflexivity|]. split; [reflexivity|].
  split.
  { intros Ha Ha' Hb Hb'. unfold validRange. simpl. lia. }
  split.
  { intros Htrim. subst shown. unfold SelectionMenu.handleMouseUp.
    rewrite Htrim. split; reflexivity. }
  intros endEl. unfold SelectionMenu.handleMouseUp.
  destruct (truthy (trim text)), endEl; split; reflexivity.
Qed.

Lemma selection_in_order_witness :
  validRange (Z.min 3 1) (Z.max 3 1)
    (ScriptViewer.handleKeyDown true false (js "l")
       (SelectionMenu.Selected (js "MARY") (Some 3) (Some 1)) officeState).
Proof.
  apply (selection_in_order (Pos := unit) officeState (js "MARY") 3 1 tt
           {| SelectionMenu.position := None;
              SelectionMenu.selectedText := [];
              SelectionMenu.selectedRange := None |});
    simpl; lia.
Defined.

(** X22. Select, apply, undo.  Take a selection between two lines of the
    document, in either order, with the keyboard shortcut; apply a
    non-empty preview; undo the entry.  The lines are those one started
    with, and in between the selection has been cleared and the line
    count has changed by the number of new lines minus the number of
    selected lines. *)
Theorem select_apply_undo {U : UpperCase} (state : ScriptState)
    (text pv : jsstring) (a b : Z) (editId : jsstring) (now : Z)
    (panel : RightPanel.Panel) :
  0 <= a -> a < Z.of_nat (length (lines state)) ->
  0 <= b -> b < Z.of_nat (length (lines state)) ->
  RightPanel.preview panel = Some pv -> pv <> [] ->
  let selected :=
    ScriptViewer.handleKeyDown true false (js "l")
      (SelectionMenu.Selected text (Some a) (Some b)) state in
  let applied := (RightPanel.handleApply editId now panel selected).2 in
  selection applied = None
  /\ Z.of_nat (length (lines applied))
     = Z.of_nat (length (lines state))
       + Z.of_nat (length (newLineObjects pv)) - (Z.abs (a - b) + 1)
  /\ lines (undoEdit editId applied) = lines state.
Proof.
  intros Ha Ha' Hb Hb' Hpv Hne selected applied.
  set (label :=
         RightPanel.orElse (RightPanel.prompt panel) (js "Style preset")).
  assert (applied
          = clearSelection
              (replaceLines (Z.min a b) (Z.max a b) pv (Some label) editId
                 now selected)) as Happlied.
  { subst applied. unfold RightPanel.handleApply. rewrite Hpv.
    subst selected. simpl. by destruct pv. }
  rewrite Happlied.
  split; [reflexivity|]. split.
  - change (lines (clearSelection ?s)) with (lines s).
    rewrite lines_replaceLines.
    change (lines selected) with (lines state).
    rewrite splice_valid by lia.
    rewrite !length_app, length_take, length_drop. lia.
  - transitivity (lines selected); [|reflexivity].
    rewrite <- (undoEdit_replaceLines selected (Z.min a b) (Z.max a b) pv
                  (Some label) editId now)
      by (change (lines selected) with (lines state); lia).
    unfold undoEdit.
    change (editHistory (clearSelection ?s)) with (editHistory s).
    change (lines (clearSelection ?s)) with (lines s).
    by destruct (list_find _ _) as [[? ?]|].
Qed.

Lemma select_apply_undo_witness :
  let panel :=
    {| RightPanel.prompt := js "Make it tense"; RightPanel.isProcessing := false;
       RightPanel.preview := Some streetText; RightPanel.error := None |} in
  let selected :=
    ScriptViewer.handleKeyDown true false (js "l")
      (SelectionMenu.Selected (js "x") (Some 3) (Some 1)) officeState in
  lines
    (undoEdit (js "edit-1")
       (RightPanel.handleApply (U := BasicLatinUpperCase) (js "edit-1") 1
          panel selected).2)
  = lines officeState.
Proof.
  intros panel selected.
  apply (select_apply_undo (U := BasicLatinUpperCase) officeState (js "x")
           streetText 3 1 (js "edit-1") 1 panel);
    first [reflexivity | discriminate | simpl; lia].
Defined.

(** ** The history list and the upload form *)

(** X23. [truncateText] never shows more than the limit and the dots.
    A text no longer than the limit is returned as it is; a longer one is
    cut to its first [maxLength] code units (to none for a negative limit)
    followed by three dots.  The result is at most three code units longer
    than the limit, 43 for the prompt of a history entry. *)
Theorem truncateText_bounded (text : jsstring) (maxLength : option Z) :
  let limit := default 50 maxLength in
  (Z.of_nat (length text) <= limit ->
   EditHistory.truncateText text maxLength = text)
  /\ (limit < Z.of_nat (length text) ->
      EditHistory.truncateText text maxLength
      = take (Z.to_nat limit) text ++ js "...")
  /\ Z.of_nat (length (EditHistory.truncateText text maxLength))
     <= Z.max limit 0 + 3
  /\ (length (EditHistory.truncateText text (Some 40%Z)) <= 43)%nat.
Proof.
  assert (forall m : Z,
             m < Z.of_nat (length text) ->
             EditHistory.truncateText text (Some m)
             = take (Z.to_nat m) text ++ js "...") as Hcut.
  { intros m Hm. unfold EditHistory.truncateText. simpl default.
    destruct (Z.leb_spec (Z.of_nat (length text)) m) as [?|_]; [lia|].
    f_equal. unfold EditHistory.substring. cbv zeta.
    set (len := Z.of_nat (length text)) in *.
    replace (Z.min (Z.min (Z.max 0 0) len) (Z.min (Z.max m 0) len))
      with 0 by lia.
    replace (Z.max (Z.min (Z.max 0 0) len) (Z.min (Z.max m 0) len))
      with (Z.max m 0) by lia.
    change (Z.to_nat 0) with 0%nat. rewrite drop_0. f_equal. lia. }
  assert (forall m : Z,
             Z.of_nat (length (EditHistory.truncateText text (Some m)))
             <= Z.max m 0 + 3) as Hbound.
  { intros m. destruct (Z_le_gt_dec (Z.of_nat (length text)) m) as [Hle|Hgt].
    - unfold EditHistory.truncateText. simpl default.
      destruct (Z.leb_spec (Z.of_nat (length text)) m) as [_|?]; lia.
    - rewrite Hcut by lia. rewrite length_app, length_take. simpl. lia. }
  intros limit.
  assert (EditHistory.truncateText text maxLength
          = EditHistory.truncateText text (Some limit)) as ->
    by (subst limit; by destruct maxLength).
  split; [|split; [|split]].
  - intros Hle. unfold EditHistory.truncateText. simpl default.
    by destruct (Z.leb_spec (Z.of_nat (length text)) limit) as [_|?]; [|lia].
  - apply Hcut.
  - apply Hbound.
  - specialize (Hbound 40). lia.
Qed.

Lemma truncateText_bounded_witness :
  EditHistory.truncateText (js "Make it more dramatic") (Some 7)
  = js "Make it...".
Proof.
  apply (proj1 (proj2 (truncateText_bounded (js "Make it more dramatic")
                         (Some 7)))).
  simpl. lia.
Defined.

Module UploadFacts.

Lemma endsWithString_suffix (s suffix : jsstring) :
  Upload.endsWithString s suffix = true <-> exists base, s = base ++ suffix.
Proof.
  unfold Upload.endsWithString. rewrite andb_true_iff, bool_decide_eq_true.
  split.
  - intros [_ H]. exists (take (length s - length suffix) s).
    pose proof (take_drop (length s - length suffix) s) as Htd.
    by rewrite H in Htd.
  - intros [base ->]. rewrite length_app. split.
    + apply Nat.leb_le. lia.
    + replace (length base + length suffix - length suffix)%nat
        with (length base) by lia.
      by rewrite drop_app_length.
Qed.

Lemma endsWithString_fmap (f : N -> N) (s suffix : jsstring) :
  Upload.endsWithString (f <$> s) suffix = true
  <-> exists base ext, s = base ++ ext /\ f <$> ext = suffix.
Proof.
  rewrite endsWithString_suffix. split.
  - intros [b H]. apply fmap_app_inv in H as (base & ext & -> & -> & ->).
    eauto.
  - intros (base & ext & -> & <-). exists (f <$> base). apply fmap_app.
Qed.

(** [size / 2^20 > 10] on the rationals. *)
Lemma tooLarge_bytes (file : Upload.File) :
  Upload.tooLarge file = true <-> 10485760 < Upload.size file.
Proof.
  unfold Upload.tooLarge, Qle_bool. rewrite negb_true_iff. simpl.
  rewrite Z.leb_gt. unfold Upload.MAX_FILE_SIZE_MB.
  change (Z.pos (1 * (1024 * 1024))) with 1048576. lia.
Qed.

End UploadFacts.

Import UploadFacts.

(** X24. The format is read off the extension, in any letter case.  For
    a Basic Latin file name the detected format is [pdf] exactly when the
    name ends with [.pdf] up to letter case, [fdx] exactly when it ends
    with [.fdx] up to letter case, and none otherwise. *)
Theorem detectFormat_by_extension {L : Upload.LowerCase}
    (file : Upload.File) :
  Forall isAscii (Upload.name file) ->
  let endsLike (suffix : jsstring) :=
    exists base ext,
      Upload.name file = base ++ ext
      /\ Upload.asciiLower <$> ext = suffix in
  (Upload.detectFormat file = Some pdf <-> endsLike (js ".pdf"))
  /\ (Upload.detectFormat file = Some fdx <-> endsLike (js ".fdx"))
  /\ (Upload.detectFormat file = None
      <-> ~ endsLike (js ".pdf") /\ ~ endsLike (js ".fdx")).
Proof.
  intros Hascii endsLike. unfold Upload.detectFormat.
  rewrite Upload.toLowerCase_ascii by done.
  change (List.map Upload.asciiLower (Upload.name file))
    with (Upload.asciiLower <$> Upload.name file).
  pose proof (endsWithString_fmap Upload.asciiLower (Upload.name file)
                (js ".pdf")) as Hpdf.
  pose proof (endsWithString_fmap Upload.asciiLower (Upload.name file)
                (js ".fdx")) as Hfdx.
  fold (endsLike (js ".pdf")) in Hpdf. fold (endsLike (js ".fdx")) in Hfdx.
  assert (endsLike (js ".pdf") -> endsLike (js ".fdx") -> False) as Hexcl.
  { intros (b1 & e1 & H1 & He1) (b2 & e2 & H2 & He2).
    rewrite H1 in H2. apply app_inj_2 in H2 as [_ ->].
    - rewrite He1 in He2. discriminate He2.
    - apply (f_equal length) in He1, He2.
      rewrite length_fmap in He1, He2. simpl in He1, He2. lia. }
  destruct (Upload.endsWithString _ (js ".pdf")) eqn:E1;
    destruct (Upload.endsWithString _ (js ".fdx")) eqn:E2;
    repeat match goal with
           | H : true = true <-> _ |- _ => apply proj1 in H; specialize (H eq_refl)
           | H : false = true <-> _ |- _ =>
               apply proj2 in H;
               assert (~ _) by (let X := fresh in intros X; apply H in X;
                                                   discriminate X);
               clear H
           end;
    (split; [|split]); split; intros; try discriminate; try done;
    try tauto.
Qed.

Lemma detectFormat_by_extension_witness :
  Upload.detectFormat (L := Upload.BasicLatinLowerCase)
    {| Upload.name := js "Draft.PDF"; Upload.size := 1000 |}
  = Some pdf.
Proof.
  apply (detectFormat_by_extension (L := Upload.BasicLatinLowerCase)
           {| Upload.name := js "Draft.PDF"; Upload.size := 1000 |}).
  - vm_compute. repeat constructor.
  - exists (js "Draft"), (js ".PDF"). split; reflexivity.
Defined.

(** X25. What an upload does to the store.  No file: nothing.  A file of
    more than 10485760 bytes: the error is set and nothing else changes,
    not even the loading flag.  A failed request: the document, the
    selection and the history stay as they are, the error is the message
    of the failure, and loading is over.  A successful one: the lines and
    characters are those of the answer, the scenes too (none when the
    answer has none), the format is the detected one, the history is
    empty, the error is cleared, loading is over, and the selection is the
    one there was. *)
Theorem handleFileUpload_effect {L : Upload.LowerCase} (file : Upload.File)
    (outcome : Upload.UploadOutcome) (state : ScriptState) :
  let after := Upload.handleFileUpload (Some file) outcome state in
  Upload.handleFileUpload None outcome state = state
  /\ (10485760 < Upload.size file ->
      after
      = setError (Some (js "File too large. Maximum size is 10MB.")) state)
  /\ (Upload.size file <= 10485760 ->
      forall f : Failure,
        outcome = Upload.UploadFailed f ->
        lines after = lines state /\ characters after = characters state
        /\ scenes after = scenes state
        /\ fileFormat after = fileFormat state
        /\ selection after = selection state
        /\ editHistory after = editHistory state
        /\ isLoading after = false
        /\ error after = Some (Upload.uploadErrorMessage f))
  /\ (Upload.size file <= 10485760 ->
      forall (lines' : list ScriptLine) (characters' : list jsstring)
        (scenes' : option (list Scene)),
        outcome = Upload.Uploaded lines' characters' scenes' ->
        lines after = lines' /\ characters after = characters'
        /\ scenes after = default [] scenes'
        /\ fileFormat after = Upload.detectFormat file
        /\ selection after = selection state
        /\ editHistory after = []
        /\ isLoading after = false
        /\ error after = None).
Proof.
  intros after. split; [reflexivity|].
  split; [|split].
  - intros Hbig. subst after. unfold Upload.handleFileUpload.
    by rewrite (proj2 (tooLarge_bytes file) Hbig).
  - intros Hsmall f ->. subst after. unfold Upload.handleFileUpload.
    destruct (Upload.tooLarge file) eqn:E.
    + apply tooLarge_bytes in E. lia.
    + repeat split.
  - intros Hsmall lines' characters' scenes' ->. subst after.
    unfold Upload.handleFileUpload.
    destruct (Upload.tooLarge file) eqn:E.
    + apply tooLarge_bytes in E. lia.
    + repeat split.
Qed.

Lemma handleFileUpload_effect_witness :
  let file := {| Upload.name := js "Draft.PDF"; Upload.size := 10485760 |} in
  editHistory
    (Upload.handleFileUpload (L := Upload.BasicLatinLowerCase) (Some file)
       (Upload.UploadFailed OtherError) officeSelected)
  = editHistory officeSelected.
Proof.
  intros file.
  apply (handleFileUpload_effect (L := Upload.BasicLatinLowerCase) file
           (Upload.UploadFailed OtherError) officeSelected) with OtherError.
  - simpl. lia.
  - reflexivity.
Defined.
